(** * FireWorks core: FireTaskBase, FWAction, FireWork and Launch

    A shallow embedding of [fireworks/core/firework.py]: the launch state
    history and its timing queries, the constructors with their validation,
    and the dictionary (de)serialization of the four classes. *)

From Stdlib Require Import ZArith QArith List String Bool Lia.
From stdpp Require Import base tactics option list.
Import ListNotations.
Open Scope string_scope.
Open Scope list_scope.

Set Default Proof Using "Type".
Set Warnings "-register-all".

(** ** Python values *)

(** [datetime.datetime] values, as a number of microseconds. *)
Definition datetime := Z.
Bind Scope Z_scope with datetime.

(** A [timedelta] is a difference of two [datetime]s, in microseconds;
    [total_seconds] is its exact value in seconds. *)
Definition total_seconds (td : Z) : Q := Qmake td 1000000.

(** Modelled from the spec: [fireworks.core.fworker.FWorker] is not among the
    sources; the spec describes it as an opaque worker descriptor that comes
    with its own serialization pair.  It is modelled as a named descriptor. *)
Record FWorker := mkFWorker { FWorker_name : string }.

(** An entry of [Launch.state_history]: the dictionary
    [{'state': ..., 'created_at': ..., 'updated_at': ...}]. *)
Record hist := mkHist { state : string; created_at : datetime; updated_at : datetime }.

(** Python values that occur in the dictionaries of this module: primitive
    values, lists, string-keyed dictionaries, and live objects of the classes
    defined here.  A dictionary is an association list; lookup finds the first
    binding of a key and item assignment replaces it in place. *)
Inductive pyval : Type :=
| VNone
| VBool (b : bool)
| VInt (z : Z)
| VStr (s : string)
| VTime (t : datetime)
| VList (l : list pyval)
| VDict (d : list (string * pyval))
| VTask (t : FireTask)
| VWorker (w : FWorker)
| VAction (a : FWAction)
| VFireWork (f : FireWork)
| VLaunch (l : Launch)
with FireTask : Type :=
| mkFireTask (fw_name : string) (parameters : list (string * pyval))
with FWAction : Type :=
| mkFWAction (command : string) (stored_data mod_spec : list (string * pyval))
with FireWork : Type :=
| mkFireWork (tasks : list FireTask) (spec : list (string * pyval)) (fw_id : Z)
             (launches : list Launch) (created_at : datetime) (state : string)
with Launch : Type :=
| mkLaunch (fworker : option FWorker) (fw_id : option Z) (host ip launch_dir : string)
           (action : option FWAction) (state_history : list hist) (_state : string)
           (launch_id : option Z).

Abbreviation dict := (list (string * pyval)).

Definition FireTask_fw_name (t : FireTask) : string := let 'mkFireTask n _ := t in n.
Definition FireTask_parameters (t : FireTask) : dict := let 'mkFireTask _ p := t in p.

Definition FWAction_command (a : FWAction) : string := let 'mkFWAction c _ _ := a in c.
Definition FWAction_stored_data (a : FWAction) : dict := let 'mkFWAction _ d _ := a in d.
Definition FWAction_mod_spec (a : FWAction) : dict := let 'mkFWAction _ _ m := a in m.

Definition FireWork_tasks (f : FireWork) : list FireTask :=
  let 'mkFireWork t _ _ _ _ _ := f in t.
Definition FireWork_spec (f : FireWork) : dict := let 'mkFireWork _ s _ _ _ _ := f in s.
Definition FireWork_fw_id (f : FireWork) : Z := let 'mkFireWork _ _ i _ _ _ := f in i.
Definition FireWork_launches (f : FireWork) : list Launch :=
  let 'mkFireWork _ _ _ l _ _ := f in l.
Definition FireWork_created_at (f : FireWork) : datetime :=
  let 'mkFireWork _ _ _ _ c _ := f in c.
Definition FireWork_state (f : FireWork) : string := let 'mkFireWork _ _ _ _ _ s := f in s.

Definition Launch_fworker (l : Launch) : option FWorker :=
  let 'mkLaunch w _ _ _ _ _ _ _ _ := l in w.
Definition Launch_fw_id (l : Launch) : option Z := let 'mkLaunch _ i _ _ _ _ _ _ _ := l in i.
Definition Launch_host (l : Launch) : string := let 'mkLaunch _ _ h _ _ _ _ _ _ := l in h.
Definition Launch_ip (l : Launch) : string := let 'mkLaunch _ _ _ i _ _ _ _ _ := l in i.
Definition Launch_launch_dir (l : Launch) : string :=
  let 'mkLaunch _ _ _ _ d _ _ _ _ := l in d.
Definition Launch_action (l : Launch) : option FWAction :=
  let 'mkLaunch _ _ _ _ _ a _ _ _ := l in a.
Definition Launch_state_history (l : Launch) : list hist :=
  let 'mkLaunch _ _ _ _ _ _ h _ _ := l in h.
(** The [state] property getter returns [self._state]. *)
Definition Launch_state (l : Launch) : string := let 'mkLaunch _ _ _ _ _ _ _ s _ := l in s.
Definition Launch_launch_id (l : Launch) : option Z :=
  let 'mkLaunch _ _ _ _ _ _ _ _ i := l in i.

(** ** Exceptions and results *)

Inductive exn : Type :=
| ValueError (msg : string)
| KeyError (key : string)
| TypeError
| IndexError
| AttributeError
| DeserializationError (name : string).

(** The outcome of a call: a value, a raised exception, or (for the
    fuel-bounded deserializers only) exhausted fuel. *)
Inductive result (A : Type) : Type :=
| OK (a : A)
| Raise (e : exn)
| OutOfFuel.
Arguments OK {A} a.
Arguments Raise {A} e.
Arguments OutOfFuel {A}.

Definition bind {A B} (m : result A) (k : A -> result B) : result B :=
  match m with
  | OK a => k a
  | Raise e => Raise e
  | OutOfFuel => OutOfFuel
  end.

Declare Scope result_scope.
Delimit Scope result_scope with result.
Notation "x <- m ; k" := (bind m (fun x => k))
  (at level 20, m at level 100, k at level 200, only parsing) : result_scope.

(** The environment a call reads: the clock behind [datetime.utcnow()] and the
    host helpers [get_my_host()], [get_my_ip()] of [fw_utilities]. *)
Record env := mkEnv { utcnow : datetime; get_my_host : string; get_my_ip : string }.

(** ** Constructors as traced computations

    An [__init__] body runs statement by statement over the object under
    construction.  The trace records the attributes assigned so far, so that a
    raise can be located relative to the assignments. *)
Definition init (A : Type) : Type := list string -> result A * list string.

Definition init_ret {A} (a : A) : init A := fun tr => (OK a, tr).
Definition init_raise {A} (e : exn) : init A := fun tr => (Raise e, tr).
Definition init_bind {A B} (m : init A) (k : A -> init B) : init B :=
  fun tr =>
    match m tr with
    | (OK a, tr') => k a tr'
    | (Raise e, tr') => (Raise e, tr')
    | (OutOfFuel, tr') => (OutOfFuel, tr')
    end.
(** [self.name = v] *)
Definition setattr {A} (name : string) (v : A) : init A := fun tr => (OK v, tr ++ [name]).

Declare Scope init_scope.
Delimit Scope init_scope with init.
Notation "x <- m ; k" := (init_bind m (fun x => k))
  (at level 20, m at level 100, k at level 200, only parsing) : init_scope.

(** Calling the class: [__init__] runs on a fresh object with no attribute. *)
Definition construct {A} (m : init A) : result A := fst (m []).

(** ** Dictionaries and membership *)

Fixpoint dict_get {A} (k : string) (d : list (string * A)) : option A :=
  match d with
  | [] => None
  | (k', v) :: d' => if String.eqb k k' then Some v else dict_get k d'
  end.

(** [k in d] *)
Definition dict_in {A} (k : string) (d : list (string * A)) : bool :=
  match dict_get k d with Some _ => true | None => false end.

(** [d[k] = v] *)
Fixpoint dict_set {A} (k : string) (v : A) (d : list (string * A)) : list (string * A) :=
  match d with
  | [] => [(k, v)]
  | (k', v') :: d' => if String.eqb k k' then (k, v) :: d' else (k', v') :: dict_set k v d'
  end.

(** [x in l] for a list of strings *)
Definition list_in (x : string) (l : list string) : bool := existsb (String.eqb x) l.

(** ** Class constants *)

Definition commands : list string :=
  ["CONTINUE"; "DEFUSE"; "MODIFY"; "DETOUR"; "CREATE"; "PHOENIX"; "BREAK"].

Definition STATE_RANKS : list (string * Z) :=
  [("DEFUSED", 0%Z); ("WAITING", 1%Z); ("READY", 2%Z); ("FIZZLED", 3%Z);
   ("RESERVED", 4%Z); ("RUNNING", 5%Z); ("CANCELED", 6%Z); ("COMPLETED", 7%Z)].

(** ** FWAction.__init__ *)

(** [d if d else {}] for an optional dictionary argument *)
Definition dict_or_empty (d : option dict) : dict :=
  match d with
  | Some (x :: d') => x :: d'
  | _ => []
  end.

Definition FWAction_init (command : string) (stored_data mod_spec : option dict)
  : init FWAction :=
  (if negb (list_in command commands)
   then init_raise (ValueError (String.append "Invalid command: " command))
   else
     c <- setattr "command" command ;
     sd <- setattr "stored_data" (dict_or_empty stored_data) ;
     ms <- setattr "mod_spec" (dict_or_empty mod_spec) ;
     init_ret (mkFWAction c sd ms))%init.

Definition FWAction_new (command : string) (stored_data mod_spec : option dict)
  : result FWAction :=
  construct (FWAction_init command stored_data mod_spec).

(** ** Launch *)

(** [st != last_state], where [last_state] is a string or [None] *)
Definition state_ne (st : string) (last_state : option string) : bool :=
  match last_state with
  | Some s => negb (String.eqb st s)
  | None => true
  end.

(** [Launch._update_state_history], on the list it appends to. *)
Definition update_state_history (e : env) (st : string) (h : list hist) : list hist :=
  let last_state := match last h with Some d => Some (state d) | None => None end in
  if state_ne st last_state
  then h ++ [mkHist st (utcnow e) (utcnow e)]
  else h.

(** [s if s else default] for an optional string argument *)
Definition str_or (s : option string) (default : string) : string :=
  match s with
  | Some (String c r) => String c r
  | _ => default
  end.

(** [h if h else []] for the optional [state_history] argument *)
Definition list_or_empty {A} (l : option (list A)) : list A :=
  match l with
  | Some (x :: l') => x :: l'
  | _ => []
  end.

Definition Launch_init (e : env) (st launch_dir : string) (fworker : option FWorker)
    (host ip : option string) (action : option FWAction)
    (state_history : option (list hist)) (launch_id fw_id : option Z) : init Launch :=
  (if negb (dict_in st STATE_RANKS)
   then init_raise (ValueError (String.append "Invalid launch state: " st))
   else
     a_fworker <- setattr "fworker" fworker ;
     a_fw_id <- setattr "fw_id" fw_id ;
     a_host <- setattr "host" (str_or host (get_my_host e)) ;
     a_ip <- setattr "ip" (str_or ip (get_my_ip e)) ;
     a_launch_dir <- setattr "launch_dir" launch_dir ;
     a_action <- setattr "action" action ;
     a_state_history <- setattr "state_history" (list_or_empty state_history) ;
     (* self.state = state, through the property setter *)
     a_state <- setattr "_state" st ;
     let a_state_history' := update_state_history e st a_state_history in
     a_launch_id <- setattr "launch_id" launch_id ;
     init_ret (mkLaunch a_fworker a_fw_id a_host a_ip a_launch_dir a_action
                        a_state_history' a_state a_launch_id))%init.

Definition Launch_new (e : env) (st launch_dir : string) (fworker : option FWorker)
    (host ip : option string) (action : option FWAction)
    (state_history : option (list hist)) (launch_id fw_id : option Z) : result Launch :=
  construct (Launch_init e st launch_dir fworker host ip action state_history launch_id fw_id).

Definition Launch_with_history (self : Launch) (h : list hist) : Launch :=
  let 'mkLaunch w i ho ip d a _ s li := self in mkLaunch w i ho ip d a h s li.

Definition Launch_with_state (self : Launch) (s : string) : Launch :=
  let 'mkLaunch w i ho ip d a h _ li := self in mkLaunch w i ho ip d a h s li.

Definition Launch_update_state_history (e : env) (st : string) (self : Launch) : Launch :=
  Launch_with_history self (update_state_history e st (Launch_state_history self)).

(** The [state] property setter. *)
Definition Launch_set_state (e : env) (value : string) (self : Launch) : Launch :=
  Launch_update_state_history e value (Launch_with_state self value).

Definition hist_touch (now : datetime) (d : hist) : hist :=
  mkHist (state d) (created_at d) now.

(** [self.state_history[-1]['updated_at'] = datetime.datetime.utcnow()] *)
Definition Launch_touch_history (e : env) (self : Launch) : result Launch :=
  let h := Launch_state_history self in
  match last h with
  | None => Raise IndexError
  | Some d => OK (Launch_with_history self (<[pred (length h) := hist_touch (utcnow e) d]> h))
  end.

(** [states if isinstance(states, list) else [states]] *)
Definition states_list (states : string + list string) : list string :=
  match states with
  | inl s => [s]
  | inr l => l
  end.

Definition Launch_get_time (states : string + list string) (use_update_time : bool)
    (self : Launch) : option datetime :=
  let states := states_list states in
  (fix loop (h : list hist) : option datetime :=
     match h with
     | [] => None
     | data :: h' =>
         if list_in (state data) states
         then (if use_update_time then Some (updated_at data) else Some (created_at data))
         else loop h'
     end) (Launch_state_history self).

Definition Launch_time_start (self : Launch) := Launch_get_time (inl "RUNNING") false self.
Definition Launch_time_end (self : Launch) :=
  Launch_get_time (inr ["COMPLETED"; "FIZZLED"]) false self.
Definition Launch_time_reserved (self : Launch) := Launch_get_time (inl "RESERVED") false self.
Definition Launch_time_ready (self : Launch) := Launch_get_time (inl "READY") false self.
Definition Launch_last_pinged (self : Launch) := Launch_get_time (inl "RUNNING") true self.

Definition Launch_runtime_secs (self : Launch) : option Q :=
  match Launch_time_start self, Launch_time_end self with
  | Some start, Some end_ => Some (total_seconds (end_ - start))
  | _, _ => None
  end.

Definition Launch_queuedtime_secs (e : env) (self : Launch) : option Q :=
  match Launch_time_reserved self with
  | Some start =>
      let end_ := match Launch_time_start self with
                  | Some t => t
                  | None => utcnow e
                  end in
      Some (total_seconds (end_ - start))
  | None => None
  end.

(** ** Sequences of operations on a launch *)

(** A sequence of assignments [self.state = value], each reading the clock. *)
Definition Launch_assign (sets : list (env * string)) (self : Launch) : Launch :=
  fold_left (fun l ev => Launch_set_state (fst ev) (snd ev) l) sets self.

Inductive Launch_op : Type :=
| Assign (e : env) (value : string)
| Touch (e : env).

Definition Launch_apply (op : Launch_op) (self : Launch) : result Launch :=
  match op with
  | Assign e value => OK (Launch_set_state e value self)
  | Touch e => Launch_touch_history e self
  end.

Fixpoint Launch_run (ops : list Launch_op) (self : Launch) : result Launch :=
  match ops with
  | [] => OK self
  | op :: ops' => (self' <- Launch_apply op self ; Launch_run ops' self')%result
  end.

(** No two consecutive entries of a history have the same state. *)
Definition consecutive_distinct (h : list hist) : Prop :=
  forall (i : nat) (a b : hist), h !! i = Some a -> h !! (S i) = Some b -> state a <> state b.

Fixpoint no_repeat (h : list hist) : bool :=
  match h with
  | a :: t => match t with
              | b :: _ => negb (String.eqb (state a) (state b)) && no_repeat t
              | [] => true
              end
  | [] => true
  end.

(** The state of the last entry of a history, if any. *)
Definition last_state (h : list hist) : option string :=
  match last h with
  | Some d => Some (state d)
  | None => None
  end.

(** The heartbeat as the specification words it: the latest [updated_at]
    among the entries in state [st]. *)
Definition most_recent_update (st : string) (h : list hist) : option datetime :=
  fold_left
    (fun acc d =>
       if String.eqb (state d) st
       then Some (match acc with Some t => Z.max t (updated_at d) | None => updated_at d end)
       else acc)
    h None.

(** The first entry of a history in state [st]. *)
Definition first_in_state (st : string) (h : list hist) : option hist :=
  find (fun d => String.eqb (state d) st) h.

(** The invariant behind [touch_history]: the history is non-empty and its
    last entry is in the launch's current state. *)
Definition history_tracks_state (L : Launch) : Prop :=
  last_state (Launch_state_history L) = Some (Launch_state L).

(** ** Serialization

    Modelled from the spec: [fireworks.utilities.fw_serializers]
    ([recursive_serialize], [recursive_deserialize], [serialize_fw]) is not
    among the sources.  The spec's serialization contract: conversion to a
    nested mapping converts embedded entities recursively and leaves primitive
    values untouched; reconstruction rebuilds embedded entities by dispatching
    on an explicit type discriminator through a closed registry; a Task
    Contract's mapping is [{parameters: mapping}] with the discriminator
    embedded inside [parameters]. *)

(** Modelled from the spec: the worker descriptor's serialization pair. *)
Definition FWorker_to_dict (w : FWorker) : pyval := VDict [("name", VStr (FWorker_name w))].

(** Modelled from the spec: the key of the type discriminator. *)
Definition fw_name_key : string := "_fw_name".

(** Modelled from the spec: [serialize_fw] embeds the discriminator of the
    task's type inside the [parameters] of the mapping [to_dict] returned. *)
Definition serialize_fw (fw_name : string) (m : pyval) : pyval :=
  match m with
  | VDict d =>
      match dict_get "parameters" d with
      | Some (VDict p) =>
          VDict (dict_set "parameters" (VDict (dict_set fw_name_key (VStr fw_name) p)) d)
      | _ => m
      end
  | _ => m
  end.

Definition opt_int (i : option Z) : pyval :=
  match i with
  | Some z => VInt z
  | None => VNone
  end.

Definition hist_to_dict (d : hist) : pyval :=
  VDict [("state", VStr (state d)); ("created_at", VTime (created_at d));
         ("updated_at", VTime (updated_at d))].

(** Modelled from the spec: [recursive_dict], the conversion behind
    [recursive_serialize]; an object that has a [to_dict] is replaced by its
    result.  The decorated [to_dict] methods of the source are defined with it
    by mutual recursion; [*_to_dict_body] below are the undecorated bodies. *)
Fixpoint recursive_dict (v : pyval) : pyval :=
  match v with
  | VNone | VBool _ | VInt _ | VStr _ | VTime _ => v
  | VList l => VList (map recursive_dict l)
  | VDict d => VDict (map (fun kv => (fst kv, recursive_dict (snd kv))) d)
  | VTask t => FireTask_to_dict t
  | VWorker w => FWorker_to_dict w
  | VAction a => FWAction_to_dict a
  | VFireWork f => FireWork_to_dict f
  | VLaunch l => Launch_to_dict l
  end
with FireTask_to_dict (t : FireTask) : pyval :=
  match t with
  | mkFireTask fw_name parameters =>
      serialize_fw fw_name
        (VDict [("parameters", VDict (map (fun kv => (fst kv, recursive_dict (snd kv))) parameters))])
  end
with FWAction_to_dict (a : FWAction) : pyval :=
  match a with
  | mkFWAction command stored_data mod_spec =>
      VDict [("action", VStr command);
             ("stored_data", VDict (map (fun kv => (fst kv, recursive_dict (snd kv))) stored_data));
             ("mod_spec", VDict (map (fun kv => (fst kv, recursive_dict (snd kv))) mod_spec))]
  end
with FireWork_to_dict (f : FireWork) : pyval :=
  match f with
  | mkFireWork tasks spec fw_id launches created_at st =>
      let m_dict := [("spec", VDict (map (fun kv => (fst kv, recursive_dict (snd kv))) spec));
                     ("fw_id", VInt fw_id); ("created_at", VTime created_at)] in
      let m_dict := match launches with
                    | _ :: _ => dict_set "launches" (VList (map Launch_to_dict launches)) m_dict
                    | [] => m_dict
                    end in
      let m_dict := if negb (String.eqb st "WAITING")
                    then dict_set "state" (VStr st) m_dict
                    else m_dict in
      VDict m_dict
  end
with Launch_to_dict (l : Launch) : pyval :=
  match l with
  | mkLaunch fworker fw_id host ip launch_dir action state_history st launch_id =>
      VDict [("fworker", match fworker with Some w => FWorker_to_dict w | None => VNone end);
             ("fw_id", opt_int fw_id); ("launch_dir", VStr launch_dir); ("host", VStr host);
             ("ip", VStr ip);
             ("action", match action with Some a => FWAction_to_dict a | None => VNone end);
             ("state", VStr st); ("state_history", VList (map hist_to_dict state_history));
             ("launch_id", opt_int launch_id)]
  end.

(** Modelled from the spec: the decorator [recursive_serialize], that is
    [recursive_serialize(func)(self) = recursive_dict(func(self))]. *)
Definition recursive_serialize {A} (func : A -> pyval) (self : A) : pyval :=
  recursive_dict (func self).

Definition opt_val {A} (inj : A -> pyval) (o : option A) : pyval :=
  match o with
  | Some a => inj a
  | None => VNone
  end.

(** The bodies of the [to_dict] methods, holding the live attribute values. *)
Definition FireTask_to_dict_body (t : FireTask) : pyval :=
  VDict [("parameters", VDict (FireTask_parameters t))].

Definition FWAction_to_dict_body (a : FWAction) : pyval :=
  VDict [("action", VStr (FWAction_command a)); ("stored_data", VDict (FWAction_stored_data a));
         ("mod_spec", VDict (FWAction_mod_spec a))].

Definition FireWork_to_dict_body (f : FireWork) : pyval :=
  let m_dict := [("spec", VDict (FireWork_spec f)); ("fw_id", VInt (FireWork_fw_id f));
                 ("created_at", VTime (FireWork_created_at f))] in
  let m_dict := if (0 <? length (FireWork_launches f))%nat
                then dict_set "launches" (VList (map VLaunch (FireWork_launches f))) m_dict
                else m_dict in
  let m_dict := if negb (String.eqb (FireWork_state f) "WAITING")
                then dict_set "state" (VStr (FireWork_state f)) m_dict
                else m_dict in
  VDict m_dict.

Definition Launch_to_dict_body (l : Launch) : pyval :=
  VDict [("fworker", opt_val VWorker (Launch_fworker l)); ("fw_id", opt_int (Launch_fw_id l));
         ("launch_dir", VStr (Launch_launch_dir l)); ("host", VStr (Launch_host l));
         ("ip", VStr (Launch_ip l)); ("action", opt_val VAction (Launch_action l));
         ("state", VStr (Launch_state l));
         ("state_history", VList (map hist_to_dict (Launch_state_history l)));
         ("launch_id", opt_int (Launch_launch_id l))].

(** [FireWork.to_db_dict] *)
Definition FireWork_to_db_dict (f : FireWork) : pyval :=
  match FireWork_to_dict f with
  | VDict m_dict =>
      let m_dict :=
        dict_set "launches" (VList (map (fun l => opt_int (Launch_launch_id l)) (FireWork_launches f)))
          m_dict in
      VDict (dict_set "state" (VStr (FireWork_state f)) m_dict)
  | m => m
  end.

(** ** FireTaskBase and FireWork constructors *)

Definition FireTaskBase_init (cls : string) (parameters : option dict) : FireTask :=
  mkFireTask cls (dict_or_empty parameters).

(** [FireWork.__init__]; [tasks] is a single task or a list of tasks. *)
Definition FireWork_init (e : env) (tasks : FireTask + list FireTask) (spec : option dict)
    (fw_id : Z) (launches : option (list Launch)) (st : string)
    (created_at : option datetime) : FireWork :=
  let tasks := match tasks with inl t => [t] | inr l => l end in
  let spec := dict_or_empty spec in
  let spec := dict_set "_tasks" (VList (map FireTask_to_dict tasks)) spec in
  mkFireWork tasks spec fw_id (list_or_empty launches)
    (match created_at with Some t => t | None => utcnow e end) st.

(** ** Deserialization *)

Definition mapM {A B} (f : A -> result B) : list A -> result (list B) :=
  fix go (l : list A) : result (list B) :=
    match l with
    | [] => OK []
    | x :: l' => (y <- f x ; r <- go l' ; OK (y :: r))%result
    end.

(** [m_dict[k]] *)
Definition getitem (k : string) (d : dict) : result pyval :=
  match dict_get k d with
  | Some v => OK v
  | None => Raise (KeyError k)
  end.

(** Python truthiness of a value, as tested by [if v] and [v if v else ...]. *)
Definition truthy (v : pyval) : bool :=
  match v with
  | VNone => false
  | VBool b => b
  | VInt z => negb (Z.eqb z 0)
  | VStr s => negb (String.eqb s "")
  | VList l => match l with [] => false | _ => true end
  | VDict d => match d with [] => false | _ => true end
  | _ => true
  end.

(** The attributes are typed as the docstrings give them.  A mapping value
    that is falsy is handled as the constructors do ([x if x else default]);
    a value of another type than the attribute's, which Python would store
    unchecked, is rejected here with TypeError. *)
Definition as_str (v : pyval) : result string :=
  match v with
  | VStr s => OK s
  | _ => Raise TypeError
  end.

Definition as_dict (v : pyval) : result dict :=
  match v with
  | VDict d => OK d
  | _ => Raise TypeError
  end.

Definition as_int (v : pyval) : result Z :=
  match v with
  | VInt z => OK z
  | _ => Raise TypeError
  end.

Definition as_time (v : pyval) : result datetime :=
  match v with
  | VTime t => OK t
  | _ => Raise TypeError
  end.

Definition int_or_none (v : pyval) : result (option Z) :=
  match v with
  | VInt z => OK (Some z)
  | VNone => OK None
  | _ => Raise TypeError
  end.

Definition dict_arg (v : pyval) : result (option dict) :=
  match v with
  | VDict d => OK (Some d)
  | _ => if truthy v then Raise TypeError else OK None
  end.

Definition str_arg (v : pyval) : result (option string) :=
  match v with
  | VStr s => OK (Some s)
  | _ => if truthy v then Raise TypeError else OK None
  end.

Definition time_arg (v : pyval) : result (option datetime) :=
  match v with
  | VTime t => OK (Some t)
  | _ => if truthy v then Raise TypeError else OK None
  end.

Definition as_hist (v : pyval) : result hist :=
  (d <- as_dict v ;
   s <- getitem "state" d ; s <- as_str s ;
   c <- getitem "created_at" d ; c <- as_time c ;
   u <- getitem "updated_at" d ; u <- as_time u ;
   OK (mkHist s c u))%result.

Definition hist_list_arg (v : pyval) : result (option (list hist)) :=
  match v with
  | VList l => (h <- mapM as_hist l ; OK (Some h))%result
  | _ => if truthy v then Raise TypeError else OK None
  end.

(** The [tasks] argument of [FireWork.__init__]: a list of tasks, or a single
    task; each element must have a [to_dict]. *)
Definition as_task (v : pyval) : result FireTask :=
  match v with
  | VTask t => OK t
  | VWorker _ | VAction _ | VFireWork _ | VLaunch _ => Raise TypeError
  | _ => Raise AttributeError
  end.

Definition as_tasks (v : pyval) : result (FireTask + list FireTask) :=
  match v with
  | VList l => (ts <- mapM as_task l ; OK (inr ts))%result
  | _ => (t <- as_task v ; OK (inl t))%result
  end.

(** Modelled from the spec: the worker descriptor's serialization pair. *)
Definition FWorker_from_dict (m : pyval) : result FWorker :=
  (d <- as_dict m ; n <- getitem "name" d ; n <- as_str n ; OK (mkFWorker n))%result.

Section Deserialization.

(** Modelled from the spec: the Task-type registry, a closed set of
    discriminators, each resolving to a task class whose [from_dict] is that
    of [FireTaskBase]. *)
Variable registry : list string.

(** Modelled from the spec: a mapping is a Task Contract's when its
    [parameters] carry a type discriminator. *)
Definition task_mapping (d : dict) : option (string * pyval) :=
  match dict_get "parameters" d with
  | Some (VDict p) =>
      match dict_get fw_name_key p with
      | Some (VStr n) => Some (n, VDict p)
      | _ => None
      end
  | _ => None
  end.

(** Modelled from the spec: dispatch of a reconstructed mapping on its type
    discriminator; an unresolved discriminator is a DeserializationError. *)
Definition load_object (d : dict) : result pyval :=
  match task_mapping d with
  | Some (n, p) =>
      if list_in n registry
      then (p <- dict_arg p ; OK (VTask (FireTaskBase_init n p)))%result
      else Raise (DeserializationError n)
  | None => OK (VDict d)
  end.

(** Modelled from the spec: the reconstruction behind
    [recursive_deserialize]; lists and mappings are rebuilt recursively,
    other values are left as they are. *)
Fixpoint recursive_load (v : pyval) : result pyval :=
  match v with
  | VList l => (l' <- mapM recursive_load l ; OK (VList l'))%result
  | VDict d =>
      (d' <- mapM (fun kv => v' <- recursive_load (snd kv) ; OK (fst kv, v')) d ;
       load_object d')%result
  | _ => OK v
  end.

(** Modelled from the spec: reconstruction of the values of a mapping. *)
Definition load_values (d : dict) : result dict :=
  mapM (fun kv => v' <- recursive_load (snd kv) ; OK (fst kv, v'))%result d.

(** Modelled from the spec: the decorator [recursive_deserialize]; the
    values of the mapping handed to [from_dict] are reconstructed first. *)
Definition recursive_deserialize {A} (func : dict -> result A) (m : pyval) : result A :=
  match m with
  | VDict d => (m_dict <- load_values d ; func m_dict)%result
  | _ => Raise TypeError
  end.

(** [FireTaskBase.from_dict], for the class registered as [cls]. *)
Definition FireTask_from_dict (cls : string) (m : pyval) : result FireTask :=
  recursive_deserialize
    (fun m_dict =>
       p <- getitem "parameters" m_dict ;
       p <- dict_arg p ;
       OK (FireTaskBase_init cls p))%result m.

(** The bodies of [FWAction.from_dict], [FireWork.from_dict] and
    [Launch.from_dict], each over the reconstructed mapping [m_dict] and the
    [from_dict] of the class it calls. *)
Definition FWAction_from_dict_body (FireWork_from_dict : pyval -> result FireWork)
    (m_dict : dict) : result FWAction :=
  (mod_spec <- getitem "mod_spec" m_dict ;
   mod_spec <- as_dict mod_spec ;
   mod_spec <- (if dict_in "create_fw" mod_spec
                then create_fw <- getitem "create_fw" mod_spec ;
                     fw <- FireWork_from_dict create_fw ;
                     OK (dict_set "create_fw" (VFireWork fw) mod_spec)
                else OK mod_spec) ;
   command <- getitem "action" m_dict ;
   stored_data <- getitem "stored_data" m_dict ;
   command <- as_str command ;
   stored_data <- dict_arg stored_data ;
   FWAction_new command stored_data (Some mod_spec))%result.

Definition FireWork_from_dict_body (e : env) (Launch_from_dict : pyval -> result Launch)
    (m_dict : dict) : result FireWork :=
  (spec <- getitem "spec" m_dict ;
   spec <- as_dict spec ;
   tasks <- getitem "_tasks" spec ;
   l <- match dict_get "launches" m_dict with
        | Some (VList (tmp :: l)) => ls <- mapM Launch_from_dict (tmp :: l) ; OK (Some ls)
        | Some v => if truthy v then Raise TypeError else OK None
        | None => OK None
        end ;
   fw_id <- match dict_get "fw_id" m_dict with
            | Some v => as_int v
            | None => OK (-1)%Z
            end ;
   st <- match dict_get "state" m_dict with
         | Some v => as_str v
         | None => OK "WAITING"
         end ;
   created_at <- match dict_get "created_at" m_dict with
                 | Some v => time_arg v
                 | None => OK None
                 end ;
   tasks <- as_tasks tasks ;
   OK (FireWork_init e tasks (Some spec) fw_id l st created_at))%result.

Definition Launch_from_dict_body (e : env) (FWAction_from_dict : pyval -> result FWAction)
    (m_dict : dict) : result Launch :=
  (fworker <- getitem "fworker" m_dict ;
   fworker <- FWorker_from_dict fworker ;
   action <- match dict_get "action" m_dict with
             | Some v => if truthy v
                         then a <- FWAction_from_dict v ; OK (Some a)
                         else OK None
             | None => OK None
             end ;
   st <- getitem "state" m_dict ;
   launch_dir <- getitem "launch_dir" m_dict ;
   host <- getitem "host" m_dict ;
   ip <- getitem "ip" m_dict ;
   state_history <- getitem "state_history" m_dict ;
   launch_id <- getitem "launch_id" m_dict ;
   fw_id <- getitem "fw_id" m_dict ;
   st <- as_str st ;
   launch_dir <- as_str launch_dir ;
   host <- str_arg host ;
   ip <- str_arg ip ;
   state_history <- hist_list_arg state_history ;
   launch_id <- int_or_none launch_id ;
   fw_id <- int_or_none fw_id ;
   Launch_new e st launch_dir (Some fworker) host ip action state_history
     launch_id fw_id)%result.

(** The three decorated class methods call one another along the nesting of
    the mapping; [fuel] bounds that depth. *)
Fixpoint FWAction_from_dict (e : env) (fuel : nat) (m : pyval) {struct fuel} : result FWAction :=
  match fuel with
  | O => OutOfFuel
  | S fuel' =>
      recursive_deserialize (FWAction_from_dict_body (FireWork_from_dict e fuel')) m
  end
with FireWork_from_dict (e : env) (fuel : nat) (m : pyval) {struct fuel} : result FireWork :=
  match fuel with
  | O => OutOfFuel
  | S fuel' =>
      recursive_deserialize (FireWork_from_dict_body e (Launch_from_dict e fuel')) m
  end
with Launch_from_dict (e : env) (fuel : nat) (m : pyval) {struct fuel} : result Launch :=
  match fuel with
  | O => OutOfFuel
  | S fuel' =>
      recursive_deserialize (Launch_from_dict_body e (FWAction_from_dict e fuel')) m
  end.

End Deserialization.

(** ** Objects that survive serialization

    The conditions under which [from_dict (to_dict x)] gives [x] back. *)

(** A dictionary object has one binding per key. *)
Fixpoint unique_keys (ks : list string) : bool :=
  match ks with
  | [] => true
  | k :: ks' => negb (list_in k ks') && unique_keys ks'
  end.

Section WellFormed.

Variable registry : list string.

(** [plain v]: [v] is data made of primitive values, lists, dictionaries
    that are not themselves task mappings, and tasks of registered types.
    [wf_task]: the task's type is registered and its parameters carry its
    discriminator.  [wf_action]: the command is valid, the payloads are
    plain, except that [mod_spec] may hold a step under [create_fw].
    [wf_firework]: the reserved key of [spec] holds the serialized tasks.
    [wf_launch]: the worker is present, host and ip are non-empty, the state
    is in the vocabulary and is that of the last history entry. *)
Fixpoint plain (v : pyval) : Prop :=
  match v with
  | VNone | VBool _ | VInt _ | VStr _ | VTime _ => True
  | VList l =>
      (fix all (l : list pyval) : Prop :=
         match l with
         | [] => True
         | x :: l' => plain x /\ all l'
         end) l
  | VDict d =>
      (fix all (d : list (string * pyval)) : Prop :=
         match d with
         | [] => True
         | kv :: d' => plain (snd kv) /\ all d'
         end) d /\ task_mapping d = None
  | VTask t => wf_task t
  | VWorker _ | VAction _ | VFireWork _ | VLaunch _ => False
  end
with wf_task (t : FireTask) : Prop :=
  match t with
  | mkFireTask fw_name parameters =>
      list_in fw_name registry = true /\
      dict_get fw_name_key parameters = Some (VStr fw_name) /\
      (fix all (d : list (string * pyval)) : Prop :=
         match d with
         | [] => True
         | kv :: d' => plain (snd kv) /\ all d'
         end) parameters /\
      task_mapping parameters = None
  end.

Fixpoint wf_action (a : FWAction) : Prop :=
  match a with
  | mkFWAction command stored_data mod_spec =>
      list_in command commands = true /\
      ((fix all (d : list (string * pyval)) : Prop :=
          match d with
          | [] => True
          | kv :: d' => plain (snd kv) /\ all d'
          end) stored_data /\ task_mapping stored_data = None) /\
      (fix all (d : list (string * pyval)) : Prop :=
         match d with
         | [] => True
         | kv :: d' =>
             (if String.eqb (fst kv) "create_fw"
              then match snd kv with
                   | VFireWork f => wf_firework f
                   | _ => False
                   end
              else plain (snd kv)) /\ all d'
         end) mod_spec /\
      unique_keys (map fst mod_spec) = true /\
      task_mapping mod_spec = None
  end
with wf_firework (f : FireWork) : Prop :=
  match f with
  | mkFireWork tasks spec fw_id launches created_at st =>
      (fix all (l : list FireTask) : Prop :=
         match l with
         | [] => True
         | t :: l' => wf_task t /\ all l'
         end) tasks /\
      (fix all (d : list (string * pyval)) : Prop :=
         match d with
         | [] => True
         | kv :: d' =>
             (if String.eqb (fst kv) "_tasks"
              then snd kv = VList (map FireTask_to_dict tasks)
              else plain (snd kv)) /\ all d'
         end) spec /\
      dict_in "_tasks" spec = true /\
      unique_keys (map fst spec) = true /\
      task_mapping spec = None /\
      (fix all (l : list Launch) : Prop :=
         match l with
         | [] => True
         | x :: l' => wf_launch x /\ all l'
         end) launches
  end
with wf_launch (l : Launch) : Prop :=
  match l with
  | mkLaunch fworker fw_id host ip launch_dir action state_history st launch_id =>
      fworker <> None /\ host <> "" /\ ip <> "" /\
      match action with
      | Some a => wf_action a
      | None => True
      end /\
      dict_in st STATE_RANKS = true /\
      last_state state_history = Some st
  end.

End WellFormed.

(** ** The spec argument as a shared object

    [FireWork.__init__] keeps the caller's [spec] dictionary itself (unless
    it is empty or absent) and assigns into it.  Here dictionaries live in a
    store and a step holds the address of its [spec]. *)
Abbreviation store := (list dict).

Record FireWork_obj := mkFireWork_obj {
  obj_tasks : list FireTask;
  obj_spec : nat;
  obj_fw_id : Z;
  obj_launches : list Launch;
  obj_created_at : datetime;
  obj_state : string
}.

(** The step an object denotes in a store. *)
Definition FireWork_deref (s : store) (o : FireWork_obj) : option FireWork :=
  match s !! obj_spec o with
  | Some d => Some (mkFireWork (obj_tasks o) d (obj_fw_id o) (obj_launches o)
                               (obj_created_at o) (obj_state o))
  | None => None
  end.

(** [FireWork.__init__] over the store; [spec] is the address of the caller's
    dictionary, if one is passed.  [None] when that address is not allocated. *)
Definition FireWork_init_obj (e : env) (tasks : FireTask + list FireTask) (spec : option nat)
    (fw_id : Z) (launches : option (list Launch)) (st : string)
    (created_at : option datetime) (s : store) : option (store * FireWork_obj) :=
  let tasks := match tasks with inl t => [t] | inr l => l end in
  (* self.spec = spec if spec else {} *)
  let target :=
    match spec with
    | Some a =>
        match s !! a with
        | Some (_ :: _) => Some (s, a)
        | Some [] => Some (s ++ [[]], length s)
        | None => None
        end
    | None => Some (s ++ [[]], length s)
    end in
  match target with
  | Some (s1, a) =>
      (* self.spec['_tasks'] = [t.to_dict() for t in tasks] *)
      match s1 !! a with
      | Some d =>
          Some (<[a := dict_set "_tasks" (VList (map FireTask_to_dict tasks)) d]> s1,
                mkFireWork_obj tasks a fw_id (list_or_empty launches)
                  (match created_at with Some t => t | None => utcnow e end) st)
      | None => None
      end
  | None => None
  end.

(** The reserved key of [spec] holds the serialized form of [tasks]. *)
Definition tasks_key_consistent (f : FireWork) : Prop :=
  dict_get "_tasks" (FireWork_spec f) = Some (VList (map FireTask_to_dict (FireWork_tasks f))).

(** ** Sample objects *)

Definition sample_registry : list string := ["ScriptTask"].

Definition sample_env : env := mkEnv 1000 "node1" "10.0.0.1".

Definition sample_task : FireTask :=
  mkFireTask "ScriptTask" [("_fw_name", VStr "ScriptTask"); ("script", VStr "echo hello")].

Definition sample_step : FireWork :=
  FireWork_init sample_env (inl sample_task) (Some [("priority", VInt 3)]) 7 None "WAITING" None.

Definition sample_action : FWAction :=
  mkFWAction "CREATE" [("exit", VInt 0)] [("create_fw", VFireWork sample_step)].

Definition sample_launch (launch_id : Z) : Launch :=
  mkLaunch (Some (mkFWorker "worker")) (Some 8%Z) "node1" "10.0.0.1" "/tmp/launch"
    (Some sample_action)
    [mkHist "RESERVED" 10 10; mkHist "RUNNING" 20 35; mkHist "COMPLETED" 40 40]
    "COMPLETED" (Some launch_id).

Definition sample_step_launched : FireWork :=
  FireWork_init sample_env (inr [sample_task; sample_task]) None 8
    (Some [sample_launch 1; sample_launch 2; sample_launch 3]) "COMPLETED" (Some 5%Z).

(** ** Induction over values and objects *)

Section pyval_induction.

Variables (P : pyval -> Prop) (PT : FireTask -> Prop) (PA : FWAction -> Prop)
          (PF : FireWork -> Prop) (PL : Launch -> Prop).

Hypothesis HNone : P VNone.
Hypothesis HBool : forall b, P (VBool b).
Hypothesis HInt : forall z, P (VInt z).
Hypothesis HStr : forall s, P (VStr s).
Hypothesis HTime : forall t, P (VTime t).
Hypothesis HList : forall l, Forall P l -> P (VList l).
Hypothesis HDict : forall d, Forall (fun kv => P (snd kv)) d -> P (VDict d).
Hypothesis HTask : forall t, PT t -> P (VTask t).
Hypothesis HWorker : forall w, P (VWorker w).
Hypothesis HAction : forall a, PA a -> P (VAction a).
Hypothesis HFireWork : forall f, PF f -> P (VFireWork f).
Hypothesis HLaunch : forall l, PL l -> P (VLaunch l).
Hypothesis HmkFireTask :
  forall n p, Forall (fun kv => P (snd kv)) p -> PT (mkFireTask n p).
Hypothesis HmkFWAction :
  forall c sd ms,
    Forall (fun kv => P (snd kv)) sd -> Forall (fun kv => P (snd kv)) ms ->
    PA (mkFWAction c sd ms).
Hypothesis HmkFireWork :
  forall tasks spec i ls c s,
    Forall PT tasks -> Forall (fun kv => P (snd kv)) spec -> Forall PL ls ->
    PF (mkFireWork tasks spec i ls c s).
Hypothesis HmkLaunch :
  forall w i h ip d a hh s li,
    match a with Some x => PA x | None => True end ->
    PL (mkLaunch w i h ip d a hh s li).

Fixpoint pyval_mutual (v : pyval) : P v :=
  match v with
  | VNone => HNone
  | VBool b => HBool b
  | VInt z => HInt z
  | VStr s => HStr s
  | VTime t => HTime t
  | VList l =>
      HList l ((fix go (l : list pyval) : Forall P l :=
                  match l with
                  | [] => List.Forall_nil P
                  | x :: l' => List.Forall_cons P x l' (pyval_mutual x) (go l')
                  end) l)
  | VDict d =>
      HDict d ((fix go (d : list (string * pyval)) : Forall (fun kv => P (snd kv)) d :=
                  match d with
                  | [] => List.Forall_nil _
                  | kv :: d' => List.Forall_cons _ kv d' (pyval_mutual (snd kv)) (go d')
                  end) d)
  | VTask t => HTask t (FireTask_mutual t)
  | VWorker w => HWorker w
  | VAction a => HAction a (FWAction_mutual a)
  | VFireWork f => HFireWork f (FireWork_mutual f)
  | VLaunch l => HLaunch l (Launch_mutual l)
  end
with FireTask_mutual (t : FireTask) : PT t :=
  match t with
  | mkFireTask n p =>
      HmkFireTask n p
        ((fix go (d : list (string * pyval)) : Forall (fun kv => P (snd kv)) d :=
            match d with
            | [] => List.Forall_nil _
            | kv :: d' => List.Forall_cons _ kv d' (pyval_mutual (snd kv)) (go d')
            end) p)
  end
with FWAction_mutual (a : FWAction) : PA a :=
  match a with
  | mkFWAction c sd ms =>
      HmkFWAction c sd ms
        ((fix go (d : list (string * pyval)) : Forall (fun kv => P (snd kv)) d :=
            match d with
            | [] => List.Forall_nil _
            | kv :: d' => List.Forall_cons _ kv d' (pyval_mutual (snd kv)) (go d')
            end) sd)
        ((fix go (d : list (string * pyval)) : Forall (fun kv => P (snd kv)) d :=
            match d with
            | [] => List.Forall_nil _
            | kv :: d' => List.Forall_cons _ kv d' (pyval_mutual (snd kv)) (go d')
            end) ms)
  end
with FireWork_mutual (f : FireWork) : PF f :=
  match f with
  | mkFireWork tasks spec i ls c s =>
      HmkFireWork tasks spec i ls c s
        ((fix go (l : list FireTask) : Forall PT l :=
            match l with
            | [] => List.Forall_nil PT
            | x :: l' => List.Forall_cons PT x l' (FireTask_mutual x) (go l')
            end) tasks)
        ((fix go (d : list (string * pyval)) : Forall (fun kv => P (snd kv)) d :=
            match d with
            | [] => List.Forall_nil _
            | kv :: d' => List.Forall_cons _ kv d' (pyval_mutual (snd kv)) (go d')
            end) spec)
        ((fix go (l : list Launch) : Forall PL l :=
            match l with
            | [] => List.Forall_nil PL
            | x :: l' => List.Forall_cons PL x l' (Launch_mutual x) (go l')
            end) ls)
  end
with Launch_mutual (l : Launch) : PL l :=
  match l with
  | mkLaunch w i h ip d a hh s li =>
      HmkLaunch w i h ip d a hh s li
        (match a as a0 return match a0 with Some x => PA x | None => True end with
         | Some x => FWAction_mutual x
         | None => I
         end)
  end.

End pyval_induction.

(** ** Statements of the round trips *)

(** Entries related pairwise under the same keys. *)
Definition entries_rel (R : pyval -> pyval -> Prop) (kv kv' : string * pyval) : Prop :=
  fst kv' = fst kv /\ R (snd kv) (snd kv').

Section RoundTripStatements.

Variable registry : list string.
Variable e : env.

(** What the round trip of plain data needs of its parts. *)
Definition loads_back (v : pyval) : Prop :=
  plain registry v -> recursive_load registry (recursive_dict v) = OK v.

Definition firework_ok (f : FireWork) : Prop :=
  wf_firework registry f ->
  exists n, forall m, (n <= m)%nat ->
    FireWork_from_dict registry e m (FireWork_to_dict f) = OK f.

Definition action_ok (a : FWAction) : Prop :=
  wf_action registry a ->
  exists n, forall m, (n <= m)%nat ->
    FWAction_from_dict registry e m (FWAction_to_dict a) = OK a.

Definition launch_ok (l : Launch) : Prop :=
  wf_launch registry l ->
  exists n, forall m, (n <= m)%nat ->
    Launch_from_dict registry e m (Launch_to_dict l) = OK l.

Definition task_ok (t : FireTask) : Prop :=
  wf_task registry t -> recursive_load registry (FireTask_to_dict t) = OK (VTask t).

Definition value_ok (v : pyval) : Prop :=
  loads_back v /\
  match v with
  | VFireWork f => firework_ok f
  | _ => True
  end.

(** The entries of a well-formed [mod_spec] and [spec]. *)
Definition mod_spec_entry (kv : string * pyval) : Prop :=
  if String.eqb (fst kv) "create_fw"
  then match snd kv with
       | VFireWork f => wf_firework registry f
       | _ => False
       end
  else plain registry (snd kv).

Definition spec_entry (tasks : list FireTask) (kv : string * pyval) : Prop :=
  if String.eqb (fst kv) "_tasks"
  then snd kv = VList (map FireTask_to_dict tasks)
  else plain registry (snd kv).

(** The reconstructed [spec]: the reserved key holds live tasks. *)
Definition spec_loaded (tasks : list FireTask) (kv : string * pyval) : string * pyval :=
  if String.eqb (fst kv) "_tasks" then (fst kv, VList (map VTask tasks)) else kv.

End RoundTripStatements.

(** ** Notions used to state further properties *)

(** Whether an entry is in one of the states a timing query looks for. *)
Definition state_in (states : string + list string) (d : hist) : bool :=
  list_in (state d) (states_list states).

(** What a history entry records for good: its state and when it was entered. *)
Definition hist_key (d : hist) : string * datetime := (state d, created_at d).

(** The clock reading of an operation. *)
Definition op_clock (op : Launch_op) : datetime :=
  match op with
  | Assign e _ => utcnow e
  | Touch e => utcnow e
  end.

(** The clock does not go back: from [t] on, along a sequence of operations. *)
Fixpoint clock_ordered (t : datetime) (ops : list Launch_op) : Prop :=
  match ops with
  | [] => True
  | op :: ops' => (t <= op_clock op)%Z /\ clock_ordered (op_clock op) ops'
  end.

Definition last_clock (t : datetime) (ops : list Launch_op) : datetime :=
  fold_left (fun _ op => op_clock op) ops t.

Fixpoint created_sorted (h : list hist) : Prop :=
  match h with
  | a :: t => match t with
              | b :: _ => (created_at a <= created_at b)%Z /\ created_sorted t
              | [] => True
              end
  | [] => True
  end.

(** The entries were entered in order, each was updated no earlier than it was
    entered, and nothing is later than [bound]. *)
Definition history_in_time (bound : datetime) (h : list hist) : Prop :=
  created_sorted h /\
  Forall (fun d => (created_at d <= updated_at d)%Z /\ (updated_at d <= bound)%Z) h.

(** * Verification *)

(** ** Histories *)

Lemma last_state_snoc (h : list hist) (d : hist) : last_state (h ++ [d]) = Some (state d).
Proof. unfold last_state. now rewrite last_snoc. Qed.

Lemma no_repeat_snoc (h : list hist) (d : hist) :
  no_repeat (h ++ [d]) = no_repeat h && state_ne (state d) (last_state h).
Proof.
  induction h as [|a [|b t] IH]; simpl in *.
  - reflexivity.
  - unfold last_state; simpl. rewrite String.eqb_sym. now rewrite andb_true_r.
  - rewrite IH. unfold last_state; simpl. now rewrite andb_assoc.
Qed.

Lemma no_repeat_spec (h : list hist) : no_repeat h = true <-> consecutive_distinct h.
Proof.
  unfold consecutive_distinct. induction h as [|a [|b t] IH].
  - split; [intros _ i a b Hi; discriminate Hi | reflexivity].
  - split; [intros _ [|i] x y Hx Hy; simpl in *; discriminate | reflexivity].
  - change (no_repeat (a :: b :: t)) with (negb (String.eqb (state a) (state b)) && no_repeat (b :: t)).
    rewrite andb_true_iff, negb_true_iff, IH. split.
    + intros [Hab Ht] [|i] x y Hx Hy.
      * simpl in Hx, Hy. injection Hx as <-. injection Hy as <-.
        now apply String.eqb_neq.
      * apply (Ht i x y); assumption.
    + intros H. split.
      * apply String.eqb_neq. now apply (H 0%nat a b).
      * intros i x y Hx Hy. now apply (H (S i) x y).
Qed.

Lemma update_state_history_last (e : env) (st : string) (h : list hist) :
  last_state (update_state_history e st h) = Some st.
Proof.
  unfold update_state_history. fold (last_state h).
  destruct (state_ne st (last_state h)) eqn:Hne.
  - now rewrite last_state_snoc.
  - unfold state_ne in Hne. destruct (last_state h) as [s|]; [|discriminate].
    apply negb_false_iff, String.eqb_eq in Hne. now subst.
Qed.

Lemma update_state_history_no_repeat (e : env) (st : string) (h : list hist) :
  no_repeat h = true -> no_repeat (update_state_history e st h) = true.
Proof.
  intros Hh. unfold update_state_history. fold (last_state h).
  destruct (state_ne st (last_state h)) eqn:Hne; [|assumption].
  rewrite no_repeat_snoc. simpl. now rewrite Hh, Hne.
Qed.

Lemma update_state_history_same (e : env) (st : string) (h : list hist) :
  last_state h = Some st -> update_state_history e st h = h.
Proof.
  intros Hl. unfold update_state_history. fold (last_state h). rewrite Hl.
  simpl. now rewrite String.eqb_refl.
Qed.

(** ** Construction *)

Lemma Launch_init_run (e : env) (st launch_dir : string) (fworker : option FWorker)
    (host ip : option string) (action : option FWAction)
    (state_history : option (list hist)) (launch_id fw_id : option Z) :
  Launch_init e st launch_dir fworker host ip action state_history launch_id fw_id [] =
  if dict_in st STATE_RANKS
  then (OK (mkLaunch fworker fw_id (str_or host (get_my_host e)) (str_or ip (get_my_ip e))
                     launch_dir action
                     (update_state_history e st (list_or_empty state_history)) st launch_id),
        ["fworker"; "fw_id"; "host"; "ip"; "launch_dir"; "action"; "state_history";
         "_state"; "launch_id"])
  else (Raise (ValueError (String.append "Invalid launch state: " st)), []).
Proof. unfold Launch_init. destruct (dict_in st STATE_RANKS); reflexivity. Qed.

Lemma Launch_new_inv (e : env) (st launch_dir : string) (fworker : option FWorker)
    (host ip : option string) (action : option FWAction)
    (state_history : option (list hist)) (launch_id fw_id : option Z) (L : Launch) :
  Launch_new e st launch_dir fworker host ip action state_history launch_id fw_id = OK L ->
  dict_in st STATE_RANKS = true /\
  L = mkLaunch fworker fw_id (str_or host (get_my_host e)) (str_or ip (get_my_ip e))
               launch_dir action
               (update_state_history e st (list_or_empty state_history)) st launch_id.
Proof.
  unfold Launch_new, construct. rewrite Launch_init_run.
  destruct (dict_in st STATE_RANKS); simpl; [|discriminate].
  intros H. injection H as <-. split; reflexivity.
Qed.

Lemma FWAction_init_run (command : string) (stored_data mod_spec : option dict) :
  FWAction_init command stored_data mod_spec [] =
  if list_in command commands
  then (OK (mkFWAction command (dict_or_empty stored_data) (dict_or_empty mod_spec)),
        ["command"; "stored_data"; "mod_spec"])
  else (Raise (ValueError (String.append "Invalid command: " command)), []).
Proof. unfold FWAction_init. destruct (list_in command commands); reflexivity. Qed.

Lemma list_in_In (x : string) (l : list string) : list_in x l = true <-> In x l.
Proof.
  unfold list_in. rewrite existsb_exists. split.
  - intros [y [Hy Heq]]. apply String.eqb_eq in Heq. now subst.
  - intros H. exists x. split; [assumption | apply String.eqb_refl].
Qed.

Lemma dict_in_In {A} (k : string) (d : list (string * A)) :
  dict_in k d = true <-> In k (map fst d).
Proof.
  unfold dict_in. induction d as [|[k' v] d IH]; simpl.
  - split; [discriminate | tauto].
  - destruct (String.eqb k k') eqn:Hk.
    + apply String.eqb_eq in Hk. subst. tauto.
    + apply String.eqb_neq in Hk. rewrite IH. split; [tauto|]. intros [H|H]; [congruence|assumption].
Qed.

(** C2. Constructing an FWAction succeeds exactly for the seven commands and
    otherwise raises ValueError; constructing a Launch raises ValueError exactly
    when the state is not a key of STATE_RANKS and otherwise succeeds.  In both
    constructors the raise happens with no attribute assigned yet (empty
    trace), and a successful run has assigned every attribute. *)
Theorem construction_validates (e : env) (command : string) (stored_data mod_spec : option dict)
    (st launch_dir : string) (fworker : option FWorker) (host ip : option string)
    (action : option FWAction) (state_history : option (list hist))
    (launch_id fw_id : option Z) :
  commands = ["CONTINUE"; "DEFUSE"; "MODIFY"; "DETOUR"; "CREATE"; "PHOENIX"; "BREAK"] /\
  (In command commands <->
   exists a, FWAction_init command stored_data mod_spec [] =
             (OK a, ["command"; "stored_data"; "mod_spec"])) /\
  (~ In command commands <->
   exists msg, FWAction_init command stored_data mod_spec [] = (Raise (ValueError msg), [])) /\
  (~ In st (map fst STATE_RANKS) <->
   exists msg, Launch_init e st launch_dir fworker host ip action state_history
                 launch_id fw_id [] = (Raise (ValueError msg), [])) /\
  (In st (map fst STATE_RANKS) <->
   exists L, Launch_init e st launch_dir fworker host ip action state_history
               launch_id fw_id [] =
             (OK L, ["fworker"; "fw_id"; "host"; "ip"; "launch_dir"; "action";
                     "state_history"; "_state"; "launch_id"])).
Proof.
  rewrite FWAction_init_run, Launch_init_run.
  rewrite <- list_in_In, <- dict_in_In.
  destruct (list_in command commands), (dict_in st STATE_RANKS);
    repeat split; try reflexivity; try discriminate; try congruence; eauto;
    try (intros [? H]; discriminate H); try (intros H; exfalso; now apply H).
Qed.

(** ** The state history under assignments and touches *)

Lemma Launch_set_state_history (e : env) (value : string) (L : Launch) :
  Launch_state_history (Launch_set_state e value L) =
  update_state_history e value (Launch_state_history L).
Proof. destruct L; reflexivity. Qed.

Lemma Launch_set_state_state (e : env) (value : string) (L : Launch) :
  Launch_state (Launch_set_state e value L) = value.
Proof. destruct L; reflexivity. Qed.

Lemma Launch_assign_snoc (sets : list (env * string)) (ev : env * string) (L : Launch) :
  Launch_assign (sets ++ [ev]) L = Launch_set_state (fst ev) (snd ev) (Launch_assign sets L).
Proof. unfold Launch_assign. now rewrite fold_left_app. Qed.

Lemma Launch_assign_no_repeat (sets : list (env * string)) (L : Launch) :
  no_repeat (Launch_state_history L) = true ->
  no_repeat (Launch_state_history (Launch_assign sets L)) = true.
Proof.
  revert L. induction sets as [|[e v] sets IH]; intros L HL; simpl.
  - assumption.
  - apply IH. rewrite Launch_set_state_history. now apply update_state_history_no_repeat.
Qed.

(** The claim of C1 as the specification states it fails when the caller
    supplies a history that already repeats a state: the constructor stores
    the list as it is.  Here the launch is built in state RUNNING over a
    history of two RUNNING entries and no assignment follows. *)
Lemma supplied_history_repeats :
  exists L : Launch,
    Launch_new (mkEnv 100 "node1" "10.0.0.1") "RUNNING" "/tmp/launch" None None None None
      (Some [mkHist "RUNNING" 1 1; mkHist "RUNNING" 2 2]) None None = OK L /\
    Launch_state_history (Launch_assign [] L) !! 0%nat = Some (mkHist "RUNNING" 1 1) /\
    Launch_state_history (Launch_assign [] L) !! 1%nat = Some (mkHist "RUNNING" 2 2) /\
    ~ consecutive_distinct (Launch_state_history (Launch_assign [] L)).
Proof.
  eexists. split; [reflexivity|]. split; [reflexivity|]. split; [reflexivity|].
  intros H. now apply (H 0%nat (mkHist "RUNNING" 1 1) (mkHist "RUNNING" 2 2)).
Qed.

(** C1 (amended). For a launch built by the constructor: when the history
    handed to the constructor (if any) has no two consecutive entries in the
    same state, then after any sequence of state assignments no two
    consecutive entries of state_history have the same state; and, whatever
    history was handed in, assigning the state of the last entry leaves
    state_history unchanged. *)
Theorem state_history_no_repeat (e : env) (st launch_dir : string) (fworker : option FWorker)
    (host ip : option string) (action : option FWAction)
    (state_history : option (list hist)) (launch_id fw_id : option Z)
    (L : Launch) (sets : list (env * string)) :
  Launch_new e st launch_dir fworker host ip action state_history launch_id fw_id = OK L ->
  (consecutive_distinct (list_or_empty state_history) ->
   consecutive_distinct (Launch_state_history (Launch_assign sets L))) /\
  forall (e' : env) (s : string),
    last_state (Launch_state_history (Launch_assign sets L)) = Some s ->
    Launch_state_history (Launch_set_state e' s (Launch_assign sets L)) =
    Launch_state_history (Launch_assign sets L).
Proof.
  intros Hnew. apply Launch_new_inv in Hnew as [_ ->]. split.
  - intros Hsup. apply no_repeat_spec, Launch_assign_no_repeat. simpl.
    apply update_state_history_no_repeat. now apply no_repeat_spec.
  - intros e' s Hs. rewrite Launch_set_state_history.
    now apply update_state_history_same.
Qed.

Lemma state_history_no_repeat_witness :
  consecutive_distinct
    (Launch_state_history
       (Launch_assign [(mkEnv 5 "n" "i", "RUNNING"); (mkEnv 6 "n" "i", "RUNNING");
                       (mkEnv 9 "n" "i", "COMPLETED")]
          (mkLaunch None None "node1" "10.0.0.1" "/tmp/launch" None
             (update_state_history (mkEnv 3 "node1" "10.0.0.1") "RESERVED" [mkHist "READY" 1 1])
             "RESERVED" None))) /\
  Launch_state_history
    (Launch_set_state (mkEnv 7 "n" "i") "RUNNING"
       (Launch_assign []
          (mkLaunch None None "node1" "10.0.0.1" "/tmp/launch" None
             (update_state_history (mkEnv 3 "node1" "10.0.0.1") "RUNNING"
                [mkHist "RUNNING" 1 1; mkHist "RUNNING" 2 2])
             "RUNNING" None))) =
  [mkHist "RUNNING" 1 1; mkHist "RUNNING" 2 2].
Proof.
  split.
  - refine (proj1 (state_history_no_repeat (mkEnv 3 "node1" "10.0.0.1") "RESERVED"
                     "/tmp/launch" None None None None (Some [mkHist "READY" 1 1]) None None
                     _ _ _) _).
    + reflexivity.
    + intros [|[|i]] a b Ha Hb; discriminate.
  - refine (proj2 (state_history_no_repeat (mkEnv 3 "node1" "10.0.0.1") "RUNNING"
                     "/tmp/launch" None None None None
                     (Some [mkHist "RUNNING" 1 1; mkHist "RUNNING" 2 2]) None None
                     _ [] _) (mkEnv 7 "n" "i") "RUNNING" _).
    + reflexivity.
    + reflexivity.
Defined.

(** ** Touching *)

Lemma touch_snoc (h : list hist) (d x : hist) :
  <[pred (length (h ++ [d])) := x]> (h ++ [d]) = h ++ [x].
Proof.
  rewrite length_app. simpl. replace (pred (length h + 1)) with (length h + 0)%nat by lia.
  now rewrite insert_app_r.
Qed.

Lemma Launch_touch_history_snoc (e : env) (L : Launch) (h : list hist) (d : hist) :
  Launch_state_history L = h ++ [d] ->
  Launch_touch_history e L = OK (Launch_with_history L (h ++ [hist_touch (utcnow e) d])).
Proof.
  intros Hh. unfold Launch_touch_history. rewrite Hh, last_snoc. now rewrite touch_snoc.
Qed.

Lemma nonempty_snoc {A} (l : list A) : l <> [] -> exists l' x, l = l' ++ [x].
Proof.
  intros Hl. destruct (last l) as [x|] eqn:Hx.
  - apply last_Some in Hx as [l' ->]. eauto.
  - apply last_None in Hx. contradiction.
Qed.

(** C9. On a launch with a non-empty history, touch_history succeeds and
    changes only the updated_at of the last state_history entry (to the
    current time): the length of state_history, every earlier entry, the last
    entry's state and created_at, and the fields state, action, launch_dir,
    fworker, host, ip, launch_id and fw_id are unchanged. *)
Theorem touch_history_frame (e : env) (L : Launch) :
  Launch_state_history L <> [] ->
  exists (L' : Launch) (d d' : hist),
    Launch_touch_history e L = OK L' /\
    length (Launch_state_history L') = length (Launch_state_history L) /\
    (forall i : nat, (S i < length (Launch_state_history L))%nat ->
                     Launch_state_history L' !! i = Launch_state_history L !! i) /\
    last (Launch_state_history L) = Some d /\
    last (Launch_state_history L') = Some d' /\
    state d' = state d /\ created_at d' = created_at d /\ updated_at d' = utcnow e /\
    Launch_state L' = Launch_state L /\
    Launch_action L' = Launch_action L /\
    Launch_launch_dir L' = Launch_launch_dir L /\
    Launch_fworker L' = Launch_fworker L /\
    Launch_host L' = Launch_host L /\
    Launch_ip L' = Launch_ip L /\
    Launch_launch_id L' = Launch_launch_id L /\
    Launch_fw_id L' = Launch_fw_id L.
Proof.
  intros Hne. destruct (nonempty_snoc _ Hne) as (h & d & Hh).
  exists (Launch_with_history L (h ++ [hist_touch (utcnow e) d])), d, (hist_touch (utcnow e) d).
  split; [now apply Launch_touch_history_snoc|].
  destruct L as [w i ho ip dir a hh s li]. simpl in *. subst hh.
  rewrite !length_app, !last_snoc. simpl.
  repeat split; try reflexivity.
  intros j Hj. rewrite !lookup_app_l by lia. reflexivity.
Qed.

Lemma touch_history_frame_witness :
  exists (L' : Launch) (d d' : hist),
    Launch_touch_history (mkEnv 42 "n" "i")
      (mkLaunch None (Some 7%Z) "node1" "10.0.0.1" "/tmp/launch" None
         [mkHist "RESERVED" 1 1; mkHist "RUNNING" 5 5] "RUNNING" (Some 1%Z)) = OK L' /\
    length (Launch_state_history L') = 2%nat /\
    last (Launch_state_history L') = Some d' /\ updated_at d' = 42%Z /\ created_at d' = 5%Z /\
    d = mkHist "RUNNING" 5 5.
Proof.
  destruct (touch_history_frame (mkEnv 42 "n" "i")
              (mkLaunch None (Some 7%Z) "node1" "10.0.0.1" "/tmp/launch" None
                 [mkHist "RESERVED" 1 1; mkHist "RUNNING" 5 5] "RUNNING" (Some 1%Z)))
    as (L' & d & d' & H1 & H2 & _ & H4 & H5 & _ & H7 & H8 & _).
  - discriminate.
  - exists L', d, d'. simpl in *. injection H4 as <-. simpl in *. repeat split; assumption.
Defined.

(** ** The last entry tracks the current state *)

Lemma history_tracks_state_nonempty (L : Launch) :
  history_tracks_state L -> Launch_state_history L <> [].
Proof. unfold history_tracks_state. intros H Hnil. rewrite Hnil in H. discriminate. Qed.

Lemma Launch_set_state_tracks (e : env) (value : string) (L : Launch) :
  history_tracks_state (Launch_set_state e value L).
Proof.
  unfold history_tracks_state.
  rewrite Launch_set_state_history, Launch_set_state_state.
  apply update_state_history_last.
Qed.

Lemma Launch_touch_history_tracks (e : env) (L : Launch) :
  history_tracks_state L ->
  exists L', Launch_touch_history e L = OK L' /\ history_tracks_state L'.
Proof.
  intros HL. destruct (nonempty_snoc _ (history_tracks_state_nonempty L HL)) as (h & d & Hh).
  exists (Launch_with_history L (h ++ [hist_touch (utcnow e) d])).
  split; [apply Launch_touch_history_snoc; exact Hh|].
  unfold history_tracks_state in *. rewrite Hh, last_state_snoc in HL.
  destruct L; simpl in *. now rewrite last_state_snoc.
Qed.

Lemma Launch_run_tracks (ops : list Launch_op) (L : Launch) :
  history_tracks_state L ->
  exists L', Launch_run ops L = OK L' /\ history_tracks_state L'.
Proof.
  revert L. induction ops as [|[e v|e] ops IH]; intros L HL; simpl.
  - eauto.
  - apply IH, Launch_set_state_tracks.
  - destruct (Launch_touch_history_tracks e L HL) as (L1 & -> & H1). simpl. now apply IH.
Qed.

(** C10. After every successful construction of a Launch (state_history
    omitted, empty or supplied), and after any further sequence of state
    assignments and touches, which all succeed, state_history is non-empty and
    the state of its last entry is the launch's current state; touch_history
    then succeeds. *)
Theorem history_last_is_state (e : env) (st launch_dir : string) (fworker : option FWorker)
    (host ip : option string) (action : option FWAction)
    (state_history : option (list hist)) (launch_id fw_id : option Z)
    (L : Launch) (ops : list Launch_op) (e' : env) :
  Launch_new e st launch_dir fworker host ip action state_history launch_id fw_id = OK L ->
  exists L' : Launch,
    Launch_run ops L = OK L' /\
    Launch_state_history L' <> [] /\
    last_state (Launch_state_history L') = Some (Launch_state L') /\
    exists L'' : Launch, Launch_touch_history e' L' = OK L''.
Proof.
  intros Hnew. apply Launch_new_inv in Hnew as [_ ->].
  destruct (Launch_run_tracks ops
              (mkLaunch fworker fw_id (str_or host (get_my_host e)) (str_or ip (get_my_ip e))
                 launch_dir action
                 (update_state_history e st (list_or_empty state_history)) st launch_id))
    as (L' & Hrun & HL').
  - unfold history_tracks_state. simpl. apply update_state_history_last.
  - exists L'. split; [assumption|]. split; [now apply history_tracks_state_nonempty|].
    split; [assumption|].
    destruct (Launch_touch_history_tracks e' L' HL') as (L'' & HL'' & _). eauto.
Qed.

Lemma history_last_is_state_witness :
  exists L' : Launch,
    Launch_run [Touch (mkEnv 2 "n" "i"); Assign (mkEnv 3 "n" "i") "RUNNING";
                Assign (mkEnv 4 "n" "i") "RUNNING"; Touch (mkEnv 8 "n" "i")]
      (mkLaunch None None "n" "i" "/tmp/launch" None [mkHist "RESERVED" 1 1] "RESERVED" None)
    = OK L' /\
    Launch_state_history L' <> [] /\
    last_state (Launch_state_history L') = Some (Launch_state L') /\
    exists L'' : Launch, Launch_touch_history (mkEnv 9 "n" "i") L' = OK L''.
Proof.
  apply (history_last_is_state (mkEnv 1 "n" "i") "RESERVED" "/tmp/launch" None None None None
           (Some []) None None).
  reflexivity.
Defined.

(** ** Timing queries *)

(** C4. For a launch whose state_history is
    [READY at t0; RESERVED at t1; RUNNING at t2; COMPLETED at t3] (created_at
    as given, any updated_at), queuedtime_secs is t2 - t1 in seconds,
    runtime_secs is t3 - t2 in seconds and time_start is t2. *)
Theorem timing_of_full_history (e : env) (L : Launch) (t0 t1 t2 t3 u0 u1 u2 u3 : datetime) :
  Launch_state_history L =
    [mkHist "READY" t0 u0; mkHist "RESERVED" t1 u1; mkHist "RUNNING" t2 u2;
     mkHist "COMPLETED" t3 u3] ->
  Launch_queuedtime_secs e L = Some (total_seconds (t2 - t1)) /\
  Launch_runtime_secs L = Some (total_seconds (t3 - t2)) /\
  Launch_time_start L = Some t2.
Proof.
  intros Hh.
  unfold Launch_queuedtime_secs, Launch_runtime_secs, Launch_time_reserved, Launch_time_start,
    Launch_time_end, Launch_get_time.
  rewrite Hh. simpl. repeat split; reflexivity.
Qed.

Lemma timing_of_full_history_witness :
  Launch_queuedtime_secs (mkEnv 99 "n" "i")
    (mkLaunch None None "n" "i" "/tmp/launch" None
       [mkHist "READY" 10 10; mkHist "RESERVED" 20 20; mkHist "RUNNING" 50 70;
        mkHist "COMPLETED" 90 90] "COMPLETED" None)
  = Some (total_seconds 30) /\
  Launch_runtime_secs
    (mkLaunch None None "n" "i" "/tmp/launch" None
       [mkHist "READY" 10 10; mkHist "RESERVED" 20 20; mkHist "RUNNING" 50 70;
        mkHist "COMPLETED" 90 90] "COMPLETED" None)
  = Some (total_seconds 40) /\
  Launch_time_start
    (mkLaunch None None "n" "i" "/tmp/launch" None
       [mkHist "READY" 10 10; mkHist "RESERVED" 20 20; mkHist "RUNNING" 50 70;
        mkHist "COMPLETED" 90 90] "COMPLETED" None)
  = Some 50%Z.
Proof.
  apply (timing_of_full_history (mkEnv 99 "n" "i") _ 10 20 50 90 10 20 70 90).
  reflexivity.
Defined.

Lemma Launch_get_time_find (st : string) (upd : bool) (L : Launch) :
  Launch_get_time (inl st) upd L =
  match first_in_state st (Launch_state_history L) with
  | Some d => Some (if upd then updated_at d else created_at d)
  | None => None
  end.
Proof.
  unfold Launch_get_time, first_in_state. simpl.
  induction (Launch_state_history L) as [|d h IH]; simpl.
  - reflexivity.
  - rewrite orb_false_r. destruct (String.eqb (state d) st); [now destruct upd|apply IH].
Qed.

Lemma most_recent_update_acc (st : string) (h : list hist) (acc : option datetime) :
  List.filter (fun d => String.eqb (state d) st) h = [] ->
  fold_left
    (fun acc d =>
       if String.eqb (state d) st
       then Some (match acc with Some t => Z.max t (updated_at d) | None => updated_at d end)
       else acc) h acc = acc.
Proof.
  revert acc. induction h as [|d h IH]; intros acc Hf; simpl in *.
  - reflexivity.
  - destruct (String.eqb (state d) st); [discriminate|]. now apply IH.
Qed.

(** The claim of C5 as the specification states it fails on a launch that
    entered RUNNING twice: the launch below is built by the constructor, two
    assignments and a touch; its second RUNNING entry was updated last (at 9),
    yet last_pinged answers with the first RUNNING entry (updated at 1). *)
Lemma last_pinged_is_not_latest :
  exists L : Launch,
    Launch_run [Assign (mkEnv 3 "n" "i") "READY"; Assign (mkEnv 4 "n" "i") "RUNNING";
                Touch (mkEnv 9 "n" "i")]
      (mkLaunch None None "n" "i" "/tmp/launch" None [mkHist "RUNNING" 1 1] "RUNNING" None)
    = OK L /\
    Launch_new (mkEnv 1 "n" "i") "RUNNING" "/tmp/launch" None (Some "n") (Some "i") None None
      None None
    = OK (mkLaunch None None "n" "i" "/tmp/launch" None [mkHist "RUNNING" 1 1] "RUNNING" None) /\
    Launch_state_history L =
      [mkHist "RUNNING" 1 1; mkHist "READY" 3 3; mkHist "RUNNING" 4 9] /\
    most_recent_update "RUNNING" (Launch_state_history L) = Some 9%Z /\
    Launch_last_pinged L = Some 1%Z.
Proof.
  exists (mkLaunch None None "n" "i" "/tmp/launch" None
            [mkHist "RUNNING" 1 1; mkHist "READY" 3 3; mkHist "RUNNING" 4 9] "RUNNING" None).
  split; [reflexivity|]. split; [reflexivity|]. split; [reflexivity|].
  split; reflexivity.
Qed.

(** C5 (amended). last_pinged returns the updated_at of the first RUNNING
    entry of state_history (nothing when there is none); when state_history
    has at most one RUNNING entry, that is the most recently updated RUNNING
    entry. *)
Theorem last_pinged_first_running (L : Launch) :
  Launch_last_pinged L =
    match first_in_state "RUNNING" (Launch_state_history L) with
    | Some d => Some (updated_at d)
    | None => None
    end /\
  ((length (List.filter (fun d => String.eqb (state d) "RUNNING") (Launch_state_history L)) <= 1)%nat ->
   Launch_last_pinged L = most_recent_update "RUNNING" (Launch_state_history L)).
Proof.
  unfold Launch_last_pinged. rewrite Launch_get_time_find. split; [reflexivity|].
  unfold first_in_state, most_recent_update.
  generalize (Launch_state_history L). intros h.
  induction h as [|d h IH]; simpl; intros Hlen.
  - reflexivity.
  - destruct (String.eqb (state d) "RUNNING") eqn:Hd; simpl in *.
    + rewrite most_recent_update_acc; [reflexivity|].
      destruct (List.filter _ h); [reflexivity | simpl in Hlen; lia].
    + now apply IH.
Qed.

(** ** The reserved task key of a step's spec *)

Lemma dict_get_set_eq {A} (k : string) (v : A) (d : list (string * A)) :
  dict_get k (dict_set k v d) = Some v.
Proof.
  induction d as [|[k' v'] d IH]; simpl.
  - now rewrite String.eqb_refl.
  - destruct (String.eqb k k') eqn:Hk; simpl.
    + now rewrite String.eqb_refl.
    + now rewrite Hk.
Qed.

Lemma dict_get_set_ne {A} (k k' : string) (v : A) (d : list (string * A)) :
  k' <> k -> dict_get k' (dict_set k v d) = dict_get k' d.
Proof.
  intros Hne. induction d as [|[k0 v0] d IH]; simpl.
  - apply String.eqb_neq in Hne. now rewrite Hne.
  - destruct (String.eqb k k0) eqn:Hk; simpl.
    + apply String.eqb_eq in Hk. subst k0.
      apply String.eqb_neq in Hne. now rewrite Hne.
    + destruct (String.eqb k' k0); [reflexivity | exact IH].
Qed.

Lemma FireWork_init_consistent (e : env) (tasks : FireTask + list FireTask)
    (spec : option dict) (fw_id : Z) (launches : option (list Launch)) (st : string)
    (created_at : option datetime) :
  tasks_key_consistent (FireWork_init e tasks spec fw_id launches st created_at).
Proof. unfold tasks_key_consistent, FireWork_init. simpl. apply dict_get_set_eq. Qed.

(** The claim of C8 as the specification states it fails once two steps are
    built over one spec dictionary: the constructor keeps the caller's
    dictionary and assigns the reserved key in it, so building the second step
    replaces the tasks recorded for the first. *)
Lemma shared_spec_overwritten :
  exists (s1 s2 : store) (o1 o2 : FireWork_obj) (f1 : FireWork),
    FireWork_init_obj (mkEnv 10 "n" "i") (inl (mkFireTask "A" [])) (Some 0%nat) 1 None
      "WAITING" None [[("x", VInt 1)]] = Some (s1, o1) /\
    FireWork_init_obj (mkEnv 20 "n" "i") (inl (mkFireTask "B" [])) (Some 0%nat) 2 None
      "WAITING" None s1 = Some (s2, o2) /\
    FireWork_deref s2 o1 = Some f1 /\
    FireWork_tasks f1 = [mkFireTask "A" []] /\
    dict_get "_tasks" (FireWork_spec f1) = Some (VList [FireTask_to_dict (mkFireTask "B" [])]) /\
    ~ tasks_key_consistent f1.
Proof.
  do 5 eexists. split; [reflexivity|]. split; [reflexivity|]. split; [reflexivity|].
  split; [reflexivity|]. split; [reflexivity|].
  unfold tasks_key_consistent. simpl. discriminate.
Qed.

(** C8 (amended). Right after construction, for every combination of the
    tasks and spec arguments (also a spec that already has a value under the
    reserved key, which is replaced), spec['_tasks'] is the serialized form of
    the step's tasks; and constructing a step leaves every step that does not
    share its spec dictionary as it was. *)
Theorem spec_tasks_key_after_init (e : env) (tasks : FireTask + list FireTask)
    (fw_id : Z) (launches : option (list Launch)) (st : string)
    (created_at : option datetime) :
  (forall spec : option dict,
     tasks_key_consistent (FireWork_init e tasks spec fw_id launches st created_at)) /\
  (forall (spec : option nat) (s s' : store) (o : FireWork_obj),
     FireWork_init_obj e tasks spec fw_id launches st created_at s = Some (s', o) ->
     FireWork_deref s' o =
       Some (FireWork_init e tasks (match spec with Some a => s !! a | None => None end)
               fw_id launches st created_at) /\
     forall (o' : FireWork_obj) (f' : FireWork),
       spec <> Some (obj_spec o') ->
       FireWork_deref s o' = Some f' -> FireWork_deref s' o' = Some f').
Proof.
  split; [intros spec; apply FireWork_init_consistent|].
  intros spec s s' o Hinit. unfold FireWork_init_obj in Hinit.
  assert (Hnew : (s ++ [[]]) !! length s = Some ([] : dict)).
  { rewrite lookup_app_r by lia. now rewrite Nat.sub_diag. }
  assert (Hfresh : forall (o' : FireWork_obj) (f' : FireWork),
             FireWork_deref s o' = Some f' ->
             FireWork_deref (<[length s := dict_set "_tasks"
                                 (VList (map FireTask_to_dict
                                           match tasks with inl t => [t] | inr l => l end)) []]>
                               (s ++ [[]])) o' = Some f').
  { intros o' f'. unfold FireWork_deref.
    destruct (s !! obj_spec o') as [d'|] eqn:Hd'; [|discriminate].
    intros Hf'. assert (Hlt : (obj_spec o' < length s)%nat) by (eapply lookup_lt_Some; eauto).
    rewrite list_lookup_insert_ne by lia. rewrite lookup_app_l by lia. now rewrite Hd'. }
  destruct spec as [a|].
  - destruct (s !! a) as [[|kv d]|] eqn:Ha; [| |discriminate].
    + rewrite Hnew in Hinit. injection Hinit as <- <-. split.
      * unfold FireWork_deref, FireWork_init. simpl.
        rewrite list_lookup_insert_eq by (rewrite length_app; simpl; lia). reflexivity.
      * intros o' f' _. apply Hfresh.
    + rewrite Ha in Hinit. injection Hinit as <- <-. split.
      * unfold FireWork_deref, FireWork_init. simpl.
        rewrite list_lookup_insert_eq by (eapply lookup_lt_Some; eauto). reflexivity.
      * intros o' f' Hne. unfold FireWork_deref.
        rewrite list_lookup_insert_ne by congruence. tauto.
  - rewrite Hnew in Hinit. injection Hinit as <- <-. split.
    + unfold FireWork_deref, FireWork_init. simpl.
      rewrite list_lookup_insert_eq by (rewrite length_app; simpl; lia). reflexivity.
    + intros o' f' _. apply Hfresh.
Qed.

(** ** Serialization: generic facts *)

Lemma bind_OK {A B} (m : result A) (k : A -> result B) (b : B) :
  bind m k = OK b -> exists a, m = OK a /\ k a = OK b.
Proof. destruct m as [a| |]; simpl; intros H; try discriminate. eauto. Qed.

Lemma mapM_map {A B C} (f : B -> result C) (g : A -> B) (l : list A) :
  mapM f (map g l) = mapM (fun x => f (g x)) l.
Proof. induction l as [|x l IH]; simpl; [reflexivity|]. now rewrite IH. Qed.

Lemma mapM_Forall {A B} (f : A -> result B) (g : A -> B) (l : list A) :
  Forall (fun x => f x = OK (g x)) l -> mapM f l = OK (map g l).
Proof.
  induction 1 as [|x l Hx _ IH]; simpl; [reflexivity|]. now rewrite Hx, IH.
Qed.

Lemma mapM_Forall_id {A} (f : A -> result A) (l : list A) :
  Forall (fun x => f x = OK x) l -> mapM f l = OK l.
Proof. intros H. rewrite (mapM_Forall f (fun x => x)); [now rewrite map_id | exact H]. Qed.

Lemma mapM_Forall2 {A B} (f : A -> result B) (l : list A) (l' : list B) :
  mapM f l = OK l' <-> Forall2 (fun x y => f x = OK y) l l'.
Proof.
  revert l'. induction l as [|x l IH]; intros l'; simpl.
  - split; intros H; [injection H as <-; constructor | inversion H; reflexivity].
  - split.
    + intros H. apply bind_OK in H as (y & Hy & H). apply bind_OK in H as (r & Hr & H).
      injection H as <-. constructor; [assumption | now apply IH].
    + intros H. inversion H as [|? y ? r Hy Hr]; subst.
      apply IH in Hr. now rewrite Hy, Hr.
Qed.

Lemma mapM_raise {A B} (f : A -> result B) (x : A) (l : list A) (err : exn) :
  f x = Raise err -> mapM f (x :: l) = Raise err.
Proof. intros H. simpl. now rewrite H. Qed.

Lemma dict_get_set_same {A} (k : string) (v : A) (d : list (string * A)) :
  dict_get k d = Some v -> dict_set k v d = d.
Proof.
  induction d as [|[k' v'] d IH]; simpl; [discriminate|].
  destruct (String.eqb k k') eqn:Hk.
  - apply String.eqb_eq in Hk. subst. intros H. injection H as <-. reflexivity.
  - intros H. now rewrite IH.
Qed.

Lemma dict_get_map {A B} (g : A -> B) (k : string) (d : list (string * A)) :
  dict_get k (map (fun kv => (fst kv, g (snd kv))) d) = option_map g (dict_get k d).
Proof.
  induction d as [|[k' v'] d IH]; simpl; [reflexivity|].
  destruct (String.eqb k k'); [reflexivity | exact IH].
Qed.

Lemma dict_set_map {A B} (g : A -> B) (k : string) (v : A) (d : list (string * A)) :
  map (fun kv => (fst kv, g (snd kv))) (dict_set k v d) =
  dict_set k (g v) (map (fun kv => (fst kv, g (snd kv))) d).
Proof.
  induction d as [|[k' v'] d IH]; simpl; [reflexivity|].
  destruct (String.eqb k k'); simpl; [reflexivity | now rewrite IH].
Qed.

Lemma dict_get_In {A} (k : string) (v : A) (d : list (string * A)) :
  dict_get k d = Some v -> In (k, v) d.
Proof.
  induction d as [|[k' v'] d IH]; simpl; [discriminate|].
  destruct (String.eqb k k') eqn:Hk.
  - apply String.eqb_eq in Hk. subst. intros H. injection H as <-. now left.
  - intros H. right. now apply IH.
Qed.

Lemma dict_in_get {A} (k : string) (d : list (string * A)) :
  dict_in k d = false <-> dict_get k d = None.
Proof. unfold dict_in. destruct (dict_get k d); split; intros H; congruence. Qed.

Lemma dict_get_Forall2 (R : pyval -> pyval -> Prop) (k : string) (d d' : list (string * pyval)) :
  Forall2 (entries_rel R) d d' ->
  match dict_get k d, dict_get k d' with
  | Some v, Some v' => R v v'
  | None, None => True
  | _, _ => False
  end.
Proof.
  induction 1 as [|[k1 v1] [k2 v2] d d' [Hk Hv] _ IH]; simpl in *; [exact I|].
  subst k2. destruct (String.eqb k k1); [exact Hv | exact IH].
Qed.

Lemma hist_to_dict_fixed (h : list hist) :
  map recursive_dict (map hist_to_dict h) = map hist_to_dict h.
Proof. induction h as [|d h IH]; simpl; [reflexivity|]. now rewrite IH. Qed.

Lemma mapM_as_hist (h : list hist) : mapM as_hist (map hist_to_dict h) = OK h.
Proof.
  rewrite mapM_map. apply mapM_Forall_id.
  induction h as [|[s c u] h IH]; constructor; [reflexivity | exact IH].
Qed.

(** The decorated [to_dict] methods are the bodies passed through
    [recursive_serialize] (and [serialize_fw] for a task). *)
Lemma FireTask_to_dict_decorated (t : FireTask) :
  FireTask_to_dict t =
  serialize_fw (FireTask_fw_name t) (recursive_serialize FireTask_to_dict_body t).
Proof. destruct t; reflexivity. Qed.

Lemma FWAction_to_dict_decorated (a : FWAction) :
  FWAction_to_dict a = recursive_serialize FWAction_to_dict_body a.
Proof. destruct a; reflexivity. Qed.

Lemma FireWork_to_dict_decorated (f : FireWork) :
  FireWork_to_dict f = recursive_serialize FireWork_to_dict_body f.
Proof.
  destruct f as [tasks spec i [|l ls] c s]; unfold recursive_serialize, FireWork_to_dict_body;
    simpl; destruct (String.eqb s "WAITING"); simpl; rewrite ?map_map; reflexivity.
Qed.

Lemma Launch_to_dict_decorated (l : Launch) :
  Launch_to_dict l = recursive_serialize Launch_to_dict_body l.
Proof.
  destruct l as [[w|] i h ip d [a|] hh s li]; unfold recursive_serialize, Launch_to_dict_body;
    simpl; rewrite hist_to_dict_fixed; destruct i, li; reflexivity.
Qed.

(** ** Reconstruction *)

Section Reconstruction.

Variable registry : list string.
Variable e : env.

Lemma recursive_load_dict (d : dict) :
  recursive_load registry (VDict d) = bind (load_values registry d) (load_object registry).
Proof. reflexivity. Qed.

Lemma recursive_load_list (l : list pyval) :
  recursive_load registry (VList l) =
  bind (mapM (recursive_load registry) l) (fun l' => OK (VList l')).
Proof. reflexivity. Qed.

Lemma load_values_Forall2 (d d' : dict) :
  load_values registry d = OK d' <->
  Forall2 (entries_rel (fun v v' => recursive_load registry v = OK v')) d d'.
Proof.
  unfold load_values. rewrite mapM_Forall2. split; intros H.
  - eapply Forall2_impl; [exact H|]. intros [k v] [k' v'] Hkv. simpl in Hkv.
    apply bind_OK in Hkv as (w & Hw & Hkv). injection Hkv as <- <-. now split.
  - eapply Forall2_impl; [exact H|]. intros [k v] [k' v'] [Hk Hv]. simpl in *.
    subst k'. now rewrite Hv.
Qed.

Lemma load_values_map (g : pyval -> pyval) (d : dict) :
  Forall (fun kv => recursive_load registry (g (snd kv)) = OK (snd kv)) d ->
  load_values registry (map (fun kv => (fst kv, g (snd kv))) d) = OK d.
Proof.
  intros H. unfold load_values. rewrite mapM_map. apply mapM_Forall_id.
  eapply Forall_impl; [exact H|]. intros [k v] Hv. simpl in *. now rewrite Hv.
Qed.

Lemma load_values_keys (d d' : dict) :
  load_values registry d = OK d' -> map fst d' = map fst d.
Proof.
  rewrite load_values_Forall2. induction 1 as [|kv kv' d d' [Hk _] _ IH]; simpl;
    [reflexivity | now rewrite Hk, IH].
Qed.

Lemma dict_get_keys {A B} (k : string) (d : list (string * A)) (d' : list (string * B)) :
  map fst d' = map fst d -> dict_get k d = None -> dict_get k d' = None.
Proof.
  revert d'. induction d as [|[k1 v1] d IH]; intros [|[k2 v2] d'] Hk; simpl in *;
    try discriminate; [reflexivity|].
  injection Hk as -> Hk. destruct (String.eqb k k1); [discriminate | now apply IH].
Qed.

Lemma task_mapping_no_parameters (d : dict) :
  dict_get "parameters" d = None -> task_mapping d = None.
Proof. unfold task_mapping. now intros ->. Qed.

Lemma load_object_not_task (d : dict) :
  task_mapping d = None -> load_object registry d = OK (VDict d).
Proof. unfold load_object. now intros ->. Qed.

(** Reconstruction is idempotent: a reconstructed value is left as it is. *)
Lemma recursive_load_idem (v : pyval) :
  forall v', recursive_load registry v = OK v' -> recursive_load registry v' = OK v'.
Proof.
  apply (pyval_mutual
           (fun v => forall v', recursive_load registry v = OK v' ->
                                recursive_load registry v' = OK v')
           (fun _ => True) (fun _ => True) (fun _ => True) (fun _ => True));
    try (intros; exact I);
    try (intros; simpl in *; match goal with H : OK _ = OK _ |- _ => injection H as <- end;
         reflexivity).
  - intros l IH v' Hl. rewrite recursive_load_list in Hl.
    apply bind_OK in Hl as (l' & Hl' & Hv'). injection Hv' as <-.
    rewrite recursive_load_list. rewrite (mapM_Forall_id _ l'); [reflexivity|].
    apply mapM_Forall2 in Hl'. clear -IH Hl'.
    induction Hl' as [|x y l l' Hxy _ IHl]; [constructor|].
    inversion IH; subst. constructor; [eauto | now apply IHl].
  - intros d IH v' Hd. rewrite recursive_load_dict in Hd.
    apply bind_OK in Hd as (d' & Hd' & Hv').
    assert (Hidem : load_values registry d' = OK d').
    { apply load_values_Forall2 in Hd'. apply load_values_Forall2. clear -IH Hd'.
      induction Hd' as [|kv kv' d d' [Hk Hv] _ IHd]; [constructor|].
      inversion IH; subst. constructor; [split; eauto | now apply IHd]. }
    unfold load_object in Hv'. destruct (task_mapping d') as [[n p]|] eqn:Htm.
    + destruct (list_in n registry); [|discriminate].
      apply bind_OK in Hv' as (p' & _ & Hv'). injection Hv' as <-. reflexivity.
    + injection Hv' as <-. rewrite recursive_load_dict, Hidem. simpl.
      now apply load_object_not_task.
Qed.

Lemma load_values_idem (d d' : dict) :
  load_values registry d = OK d' -> load_values registry d' = OK d'.
Proof.
  rewrite !load_values_Forall2. induction 1 as [|kv kv' d d' [Hk Hv] _ IH]; constructor.
  - split; [reflexivity | eapply recursive_load_idem; eauto].
  - exact IH.
Qed.

Lemma recursive_deserialize_loaded {A} (func : dict -> result A) (d d' : dict) :
  load_values registry d = OK d' ->
  recursive_deserialize registry func (VDict d') = recursive_deserialize registry func (VDict d).
Proof. intros H. simpl. now rewrite (load_values_idem d d' H), H. Qed.

Lemma FireWork_from_dict_loaded (fuel : nat) (d d' : dict) :
  load_values registry d = OK d' ->
  FireWork_from_dict registry e fuel (VDict d') = FireWork_from_dict registry e fuel (VDict d).
Proof. destruct fuel; [reflexivity|]. apply recursive_deserialize_loaded. Qed.

Lemma FWAction_from_dict_loaded (fuel : nat) (d d' : dict) :
  load_values registry d = OK d' ->
  FWAction_from_dict registry e fuel (VDict d') = FWAction_from_dict registry e fuel (VDict d).
Proof. destruct fuel; [reflexivity|]. apply recursive_deserialize_loaded. Qed.

Lemma Launch_from_dict_loaded (fuel : nat) (d d' : dict) :
  load_values registry d = OK d' ->
  Launch_from_dict registry e fuel (VDict d') = Launch_from_dict registry e fuel (VDict d).
Proof. destruct fuel; [reflexivity|]. apply recursive_deserialize_loaded. Qed.

Lemma recursive_deserialize_OK {A} (func : dict -> result A) (m : pyval) (a : A) :
  recursive_deserialize registry func m = OK a ->
  exists d d', m = VDict d /\ load_values registry d = OK d' /\ func d' = OK a.
Proof.
  destruct m; simpl; try discriminate. intros H.
  apply bind_OK in H as (d' & Hd' & Ha). eauto.
Qed.

End Reconstruction.

(** ** Serialized values are plain data *)

Lemma map_rd_fixed (d : dict) :
  Forall (fun kv => recursive_dict (recursive_dict (snd kv)) = recursive_dict (snd kv)) d ->
  map (fun kv => (fst kv, recursive_dict (snd kv)))
      (map (fun kv => (fst kv, recursive_dict (snd kv))) d) =
  map (fun kv => (fst kv, recursive_dict (snd kv))) d.
Proof.
  induction 1 as [|[k v] d Hv _ IH]; simpl in *; [reflexivity|]. now rewrite Hv, IH.
Qed.

Lemma serialize_fw_parameters (n : string) (p : dict) :
  serialize_fw n (VDict [("parameters", VDict p)]) =
  VDict [("parameters", VDict (dict_set fw_name_key (VStr n) p))].
Proof. reflexivity. Qed.

Lemma FireTask_to_dict_unfold (n : string) (p : dict) :
  FireTask_to_dict (mkFireTask n p) =
  VDict [("parameters",
          VDict (dict_set fw_name_key (VStr n)
                   (map (fun kv => (fst kv, recursive_dict (snd kv))) p)))].
Proof. reflexivity. Qed.

(** Serializing the result of a serialization changes nothing. *)
Lemma recursive_dict_idem (v : pyval) : recursive_dict (recursive_dict v) = recursive_dict v.
Proof.
  apply (pyval_mutual
           (fun v => recursive_dict (recursive_dict v) = recursive_dict v)
           (fun t => recursive_dict (FireTask_to_dict t) = FireTask_to_dict t)
           (fun a => recursive_dict (FWAction_to_dict a) = FWAction_to_dict a)
           (fun f => recursive_dict (FireWork_to_dict f) = FireWork_to_dict f)
           (fun l => recursive_dict (Launch_to_dict l) = Launch_to_dict l));
    try reflexivity; try (intros; assumption).
  - intros l IH. simpl. f_equal. rewrite map_map.
    induction IH as [|x l Hx _ IHl]; simpl; [reflexivity | now rewrite Hx, IHl].
  - intros d IH. simpl. f_equal. now apply map_rd_fixed.
  - intros n p IH. rewrite FireTask_to_dict_unfold.
    cbn [recursive_dict map fst snd]. rewrite dict_set_map. cbn [recursive_dict].
    now rewrite map_rd_fixed.
  - intros c sd ms IHsd IHms. cbn [FWAction_to_dict recursive_dict map fst snd].
    now rewrite !map_rd_fixed.
  - intros tasks spec i ls c s IHt IHs IHl.
    assert (Hl : map recursive_dict (map Launch_to_dict ls) = map Launch_to_dict ls).
    { rewrite map_map. clear -IHl.
      induction IHl as [|x l Hx _ IH]; simpl; [reflexivity | now rewrite Hx, IH]. }
    destruct ls as [|l0 ls]; destruct (String.eqb s "WAITING") eqn:Hs;
      cbn [FireWork_to_dict]; rewrite Hs; cbn [negb dict_set String.eqb Ascii.eqb Bool.eqb];
      cbn [recursive_dict map fst snd]; rewrite ?map_rd_fixed by assumption;
      try reflexivity; cbn [map] in Hl; injection Hl as H1 H2; rewrite H1, H2; reflexivity.
  - intros w i h ip d a hh s li IHa.
    cbn [Launch_to_dict recursive_dict map fst snd].
    rewrite hist_to_dict_fixed.
    destruct w, i, li, a; cbn [recursive_dict FWorker_to_dict opt_int map fst snd];
      rewrite ?IHa; reflexivity.
Qed.

(** ** Round trips *)

Section RoundTrip.

Variable registry : list string.
Variable e : env.

Local Abbreviation loads_back := (loads_back registry).
Local Abbreviation task_ok := (task_ok registry).
Local Abbreviation firework_ok := (firework_ok registry e).
Local Abbreviation action_ok := (action_ok registry e).
Local Abbreviation launch_ok := (launch_ok registry e).
Local Abbreviation value_ok := (value_ok registry e).
Local Abbreviation mod_spec_entry := (mod_spec_entry registry).
Local Abbreviation spec_entry := (spec_entry registry).

Lemma plain_list (l : list pyval) :
  plain registry (VList l) <-> Forall (plain registry) l.
Proof.
  simpl. induction l as [|x l IH]; [split; [constructor | exact (fun _ => I)]|].
  rewrite IH. split.
  - intros [Hx Hl]. now constructor.
  - intros H. inversion H; subst. now split.
Qed.

Lemma plain_entries (d : dict) :
  (fix all (d : list (string * pyval)) : Prop :=
     match d with
     | [] => True
     | kv :: d' => plain registry (snd kv) /\ all d'
     end) d <-> Forall (fun kv => plain registry (snd kv)) d.
Proof.
  induction d as [|x d IH]; [split; [constructor | exact (fun _ => I)]|].
  rewrite IH. split.
  - intros [Hx Hl]. now constructor.
  - intros H. inversion H; subst. now split.
Qed.

Lemma plain_dict (d : dict) :
  plain registry (VDict d) <->
  Forall (fun kv => plain registry (snd kv)) d /\ task_mapping d = None.
Proof. simpl. now rewrite plain_entries. Qed.

Lemma wf_task_unfold (n : string) (p : dict) :
  wf_task registry (mkFireTask n p) <->
  list_in n registry = true /\ dict_get fw_name_key p = Some (VStr n) /\
  Forall (fun kv => plain registry (snd kv)) p /\ task_mapping p = None.
Proof. simpl. now rewrite plain_entries. Qed.

Lemma dict_or_empty_Some (d : dict) : dict_or_empty (Some d) = d.
Proof. now destruct d. Qed.

Lemma list_or_empty_Some {A} (l : list A) : list_or_empty (Some l) = l.
Proof. now destruct l. Qed.

Lemma load_values_cons (k : string) (v : pyval) (d : dict) :
  load_values registry ((k, v) :: d) =
  bind (recursive_load registry v)
    (fun v' => bind (load_values registry d) (fun d' => OK ((k, v') :: d'))).
Proof.
  unfold load_values. simpl. destruct (recursive_load registry v); reflexivity.
Qed.

Lemma load_values_nil : load_values registry [] = OK [].
Proof. reflexivity. Qed.

Lemma load_plain_entries (d : dict) :
  Forall (fun kv => loads_back (snd kv)) d ->
  Forall (fun kv => plain registry (snd kv)) d ->
  load_values registry (map (fun kv => (fst kv, recursive_dict (snd kv))) d) = OK d.
Proof.
  intros IH Hp. apply load_values_map.
  induction IH as [|kv d Hkv _ IHd]; [constructor|].
  inversion Hp; subst. constructor; [now apply Hkv | now apply IHd].
Qed.

Lemma load_plain_dict (d : dict) :
  Forall (fun kv => loads_back (snd kv)) d ->
  Forall (fun kv => plain registry (snd kv)) d -> task_mapping d = None ->
  recursive_load registry (VDict (map (fun kv => (fst kv, recursive_dict (snd kv))) d)) =
  OK (VDict d).
Proof.
  intros IH Hp Htm. rewrite recursive_load_dict, load_plain_entries by assumption.
  simpl. now apply load_object_not_task.
Qed.

Lemma load_task (n : string) (p : dict) :
  Forall (fun kv => loads_back (snd kv)) p ->
  wf_task registry (mkFireTask n p) ->
  recursive_load registry (FireTask_to_dict (mkFireTask n p)) = OK (VTask (mkFireTask n p)).
Proof.
  intros IH Hwf. apply wf_task_unfold in Hwf as (Hreg & Hkey & Hp & Htm).
  rewrite FireTask_to_dict_unfold.
  rewrite dict_get_set_same by (rewrite dict_get_map, Hkey; reflexivity).
  rewrite recursive_load_dict, load_values_cons, load_plain_dict by assumption.
  cbn [bind]. rewrite load_values_nil. cbn [bind].
  unfold load_object, task_mapping.
  cbn [dict_get String.eqb Ascii.eqb Bool.eqb]. rewrite Hkey, Hreg.
  cbn [dict_arg bind]. unfold FireTaskBase_init. now rewrite dict_or_empty_Some.
Qed.

(** A mapping without a [parameters] key is reconstructed entry by entry. *)
Lemma load_mapping (d d' : dict) :
  dict_get "parameters" d = None -> load_values registry d = OK d' ->
  recursive_load registry (VDict d) = OK (VDict d').
Proof.
  intros Hp Hd. rewrite recursive_load_dict, Hd. cbn [bind].
  apply load_object_not_task, task_mapping_no_parameters.
  eapply dict_get_keys; [|exact Hp]. now apply (load_values_keys registry).
Qed.

Lemma FireWork_to_dict_mapping (f : FireWork) :
  exists d, FireWork_to_dict f = VDict d /\ dict_get "parameters" d = None.
Proof.
  destruct f as [tasks spec i [|l ls] c s]; cbn [FireWork_to_dict];
    destruct (String.eqb s "WAITING"); eexists; split; reflexivity.
Qed.

Lemma FWAction_to_dict_mapping (a : FWAction) :
  exists d, FWAction_to_dict a = VDict d /\ dict_get "parameters" d = None.
Proof. destruct a. eexists; split; reflexivity. Qed.

Lemma Launch_to_dict_mapping (l : Launch) :
  exists d, Launch_to_dict l = VDict d /\ dict_get "parameters" d = None.
Proof. destruct l. eexists; split; reflexivity. Qed.

Lemma value_ok_loads_back (d : dict) :
  Forall (fun kv => value_ok (snd kv)) d -> Forall (fun kv => loads_back (snd kv)) d.
Proof. apply List.Forall_impl. intros kv [H _]. exact H. Qed.

Lemma wf_action_unfold (c : string) (sd ms : dict) :
  wf_action registry (mkFWAction c sd ms) <->
  list_in c commands = true /\
  (Forall (fun kv => plain registry (snd kv)) sd /\ task_mapping sd = None) /\
  Forall mod_spec_entry ms /\ unique_keys (map fst ms) = true /\ task_mapping ms = None.
Proof.
  cbn [wf_action]. rewrite plain_entries.
  assert (H : forall d : dict,
             (fix all (d : list (string * pyval)) : Prop :=
                match d with
                | [] => True
                | kv :: d' =>
                    (if String.eqb (fst kv) "create_fw"
                     then match snd kv with
                          | VFireWork f => wf_firework registry f
                          | _ => False
                          end
                     else plain registry (snd kv)) /\ all d'
                end) d <-> Forall mod_spec_entry d).
  { induction d as [|x d IH]; [split; [constructor | exact (fun _ => I)]|].
    rewrite IH. split.
    - intros [Hx Hl]. now constructor.
    - intros H. inversion H; subst. now split. }
  now rewrite H.
Qed.

Lemma unique_keys_plain (k : string) (P : string * pyval -> Prop) (d : dict) :
  list_in k (map fst d) = false ->
  Forall (fun kv => if String.eqb (fst kv) k then P kv else plain registry (snd kv)) d ->
  Forall (fun kv => plain registry (snd kv)) d /\ dict_get k d = None.
Proof.
  induction d as [|[k' v] d IH]; simpl; intros Hk Hd; [split; [constructor | reflexivity]|].
  apply orb_false_iff in Hk as [Hk Hk']. inversion Hd as [|? ? Hv Hd']; subst.
  cbn [fst snd] in Hv. rewrite String.eqb_sym in Hv. rewrite Hk in *.
  destruct (IH Hk' Hd') as [IH1 IH2]. split; [now constructor | exact IH2].
Qed.

Lemma load_mod_spec (ms : dict) :
  Forall (fun kv => value_ok (snd kv)) ms ->
  Forall mod_spec_entry ms -> unique_keys (map fst ms) = true ->
  exists (n : nat) (ms' : dict),
    load_values registry (map (fun kv => (fst kv, recursive_dict (snd kv))) ms) = OK ms' /\
    dict_get "parameters" ms' = dict_get "parameters" ms /\
    ((dict_get "create_fw" ms' = None /\ ms' = ms) \/
     (exists (f : FireWork) (dF' : dict),
        dict_get "create_fw" ms' = Some (VDict dF') /\
        (forall m, (n <= m)%nat -> FireWork_from_dict registry e m (VDict dF') = OK f) /\
        dict_set "create_fw" (VFireWork f) ms' = ms)).
Proof.
  induction ms as [|[k v] ms IH]; intros Hok Hent Huniq.
  - exists 0%nat, []. split; [reflexivity|]. split; [reflexivity|]. left. now split.
  - inversion Hok as [|? ? [Hv Hf] Hok']; subst. inversion Hent as [|? ? Hkv Hent']; subst.
    cbn [map fst unique_keys] in Huniq. apply andb_true_iff in Huniq as [Hnotin Huniq].
    apply negb_true_iff in Hnotin. unfold mod_spec_entry in Hkv. cbn [fst snd] in *.
    cbn [map fst snd]. rewrite load_values_cons.
    destruct (String.eqb k "create_fw") eqn:Hk.
    + apply String.eqb_eq in Hk. subst k.
      destruct v as [| | | | | | | | | |f|]; try contradiction.
      destruct (Hf Hkv) as [n Hn].
      destruct (unique_keys_plain "create_fw"
                  (fun kv => match snd kv with
                             | VFireWork f => wf_firework registry f
                             | _ => False
                             end) ms Hnotin Hent') as [Hplain Hnone].
      destruct (FireWork_to_dict_mapping f) as (dF & HdF & Hpar).
      assert (Hload : exists dF', load_values registry dF = OK dF').
      { specialize (Hn (S n) (Nat.le_succ_diag_r n)). rewrite HdF in Hn.
        cbn [FireWork_from_dict] in Hn.
        apply (recursive_deserialize_OK registry) in Hn as (d0 & d0' & Heq & Hd0 & _).
        injection Heq as <-. eauto. }
      destruct Hload as [dF' HdF'].
      exists n, (("create_fw", VDict dF') :: ms).
      cbn [recursive_dict]. rewrite HdF, (load_mapping dF dF' Hpar HdF'). cbn [bind].
      rewrite (load_plain_entries ms (value_ok_loads_back ms Hok') Hplain). cbn [bind].
      split; [reflexivity|]. split; [reflexivity|]. right. exists f, dF'.
      split; [reflexivity|]. split; [|reflexivity].
      intros m Hm. rewrite (FireWork_from_dict_loaded registry e m dF dF' HdF').
      rewrite <- HdF. now apply Hn.
    + destruct (IH Hok' Hent' Huniq) as (n & ms' & Hload & Hpar & Hcase).
      exists n, ((k, v) :: ms'). rewrite (Hv Hkv). cbn [bind]. rewrite Hload. cbn [bind].
      split; [reflexivity|]. split.
      { cbn [dict_get]. now rewrite Hpar. }
      assert (Hk' : String.eqb "create_fw" k = false) by now rewrite String.eqb_sym.
      destruct Hcase as [[Hnone ->]|(f & dF' & Hget & Hfrom & Hset)].
      * left. split; [|reflexivity]. cbn [dict_get]. now rewrite Hk'.
      * right. exists f, dF'. split; [cbn [dict_get]; now rewrite Hk'|].
        split; [exact Hfrom|]. cbn [dict_set]. rewrite Hk'. now rewrite Hset.
Qed.

Lemma FWAction_new_OK (c : string) (sd ms : dict) :
  list_in c commands = true ->
  FWAction_new c (Some sd) (Some ms) = OK (mkFWAction c sd ms).
Proof.
  intros Hc. unfold FWAction_new, construct. rewrite FWAction_init_run, Hc.
  cbn [fst]. now rewrite !dict_or_empty_Some.
Qed.

Lemma FWAction_round_trip (c : string) (sd ms : dict) :
  Forall (fun kv => value_ok (snd kv)) sd -> Forall (fun kv => value_ok (snd kv)) ms ->
  action_ok (mkFWAction c sd ms).
Proof.
  intros Hsd Hms Hwf. apply wf_action_unfold in Hwf as (Hc & [Hpsd Htsd] & Hent & Huniq & Htms).
  destruct (load_mod_spec ms Hms Hent Huniq) as (n & ms' & Hload & Hpar & Hcase).
  assert (Htms' : task_mapping ms' = None).
  { unfold task_mapping in *. now rewrite Hpar. }
  exists (S n). intros [|m] Hm; [lia|]. apply le_S_n in Hm.
  cbn [FWAction_from_dict FWAction_to_dict recursive_deserialize].
  rewrite !load_values_cons, load_values_nil.
  change (recursive_load registry (VStr c)) with (OK (VStr c)).
  rewrite (load_plain_dict sd (value_ok_loads_back sd Hsd) Hpsd Htsd).
  rewrite recursive_load_dict, Hload. cbn [bind].
  rewrite (load_object_not_task registry ms' Htms'). cbn [bind].
  unfold FWAction_from_dict_body.
  cbn [getitem dict_get String.eqb Ascii.eqb Bool.eqb bind as_dict].
  destruct Hcase as [[Hnone ->]|(f & dF' & Hget & Hfrom & Hset)].
  - unfold dict_in. rewrite Hnone. cbn [bind as_str dict_arg].
    now apply FWAction_new_OK.
  - unfold dict_in, getitem. rewrite Hget. cbn [bind].
    rewrite (Hfrom m Hm). cbn [bind as_str dict_arg]. rewrite Hset.
    now apply FWAction_new_OK.
Qed.

Lemma str_or_Some (s default : string) : s <> "" -> str_or (Some s) default = s.
Proof. destruct s; [contradiction | reflexivity]. Qed.

Lemma load_hist (h : list hist) :
  recursive_load registry (VList (map hist_to_dict h)) = OK (VList (map hist_to_dict h)).
Proof.
  rewrite recursive_load_list, mapM_map, (mapM_Forall _ hist_to_dict); [reflexivity|].
  induction h as [|x h IH]; constructor; [reflexivity | exact IH].
Qed.

Lemma load_opt_int (i : option Z) : recursive_load registry (opt_int i) = OK (opt_int i).
Proof. now destruct i. Qed.

Lemma int_or_none_opt_int (i : option Z) : int_or_none (opt_int i) = OK i.
Proof. now destruct i. Qed.

Lemma FWorker_round_trip (w : FWorker) : FWorker_from_dict (FWorker_to_dict w) = OK w.
Proof. now destruct w. Qed.

Lemma Launch_new_OK (st launch_dir : string) (w : FWorker) (host ip : string)
    (action : option FWAction) (hh : list hist) (launch_id fw_id : option Z) :
  host <> "" -> ip <> "" -> dict_in st STATE_RANKS = true -> last_state hh = Some st ->
  Launch_new e st launch_dir (Some w) (Some host) (Some ip) action (Some hh) launch_id fw_id =
  OK (mkLaunch (Some w) fw_id host ip launch_dir action hh st launch_id).
Proof.
  intros Hh Hip Hst Hlast. unfold Launch_new, construct. rewrite Launch_init_run, Hst.
  cbn [fst]. rewrite !str_or_Some, list_or_empty_Some by assumption.
  now rewrite update_state_history_same.
Qed.

Lemma Launch_from_dict_body_OK (fa : pyval -> result FWAction) (w : FWorker)
    (i : option Z) (h ip d : string) (a : option FWAction) (hh : list hist) (s : string)
    (li : option Z) (va : pyval) :
  match a with
  | Some a0 => truthy va = true /\ fa va = OK a0
  | None => va = VNone
  end ->
  h <> "" -> ip <> "" -> dict_in s STATE_RANKS = true -> last_state hh = Some s ->
  Launch_from_dict_body e fa
    [("fworker", FWorker_to_dict w); ("fw_id", opt_int i); ("launch_dir", VStr d);
     ("host", VStr h); ("ip", VStr ip); ("action", va); ("state", VStr s);
     ("state_history", VList (map hist_to_dict hh)); ("launch_id", opt_int li)] =
  OK (mkLaunch (Some w) i h ip d a hh s li).
Proof.
  intros Ha Hh Hip Hs Hlast. unfold Launch_from_dict_body.
  cbn [getitem dict_get String.eqb Ascii.eqb Bool.eqb bind].
  rewrite FWorker_round_trip. cbn [bind].
  assert (Hact : (if truthy va then bind (fa va) (fun a0 => OK (Some a0)) else OK None) = OK a).
  { destruct a as [a0|]; [destruct Ha as [-> ->]; reflexivity | subst va; reflexivity]. }
  rewrite Hact. cbn [bind as_str str_arg hist_list_arg].
  rewrite mapM_as_hist. cbn [bind]. rewrite !int_or_none_opt_int. cbn [bind].
  now apply Launch_new_OK.
Qed.

Lemma Launch_round_trip (w : option FWorker) (i : option Z) (h ip d : string)
    (a : option FWAction) (hh : list hist) (s : string) (li : option Z) :
  match a with Some x => action_ok x | None => True end ->
  launch_ok (mkLaunch w i h ip d a hh s li).
Proof.
  intros IH (Hw & Hh & Hip & Ha & Hs & Hlast).
  destruct w as [w|]; [clear Hw | contradiction].
  assert (Hload : exists (n : nat) (va : pyval),
             recursive_load registry
               (match a with Some a0 => FWAction_to_dict a0 | None => VNone end) = OK va /\
             forall m, (n <= m)%nat ->
               match a with
               | Some a0 => truthy va = true /\ FWAction_from_dict registry e m va = OK a0
               | None => va = VNone
               end).
  { destruct a as [a0|].
    - destruct (IH Ha) as [n Hn].
      destruct (FWAction_to_dict_mapping a0) as (dA & HdA & Hpar).
      assert (Hl : exists dA', load_values registry dA = OK dA').
      { specialize (Hn (S n) (Nat.le_succ_diag_r n)). rewrite HdA in Hn.
        cbn [FWAction_from_dict] in Hn.
        apply (recursive_deserialize_OK registry) in Hn as (d0 & d0' & Heq & Hd0 & _).
        injection Heq as <-. eauto. }
      destruct Hl as [dA' HdA'].
      exists n, (VDict dA'). rewrite HdA. split; [now apply load_mapping|].
      intros m Hm. split.
      + apply load_values_keys in HdA'. destruct a0. injection HdA as <-.
        destruct dA'; [discriminate | reflexivity].
      + rewrite (FWAction_from_dict_loaded registry e m dA dA' HdA'), <- HdA. now apply Hn.
    - exists 0%nat, VNone. split; [reflexivity | intros; reflexivity]. }
  destruct Hload as (n & va & Hva & Hn).
  exists (S n). intros [|m] Hm; [lia|]. apply le_S_n in Hm.
  cbn [Launch_from_dict Launch_to_dict recursive_deserialize].
  rewrite !load_values_cons, load_values_nil.
  rewrite Hva, load_hist, !load_opt_int.
  change (recursive_load registry (FWorker_to_dict w)) with (OK (FWorker_to_dict w)).
  change (recursive_load registry (VStr d)) with (OK (VStr d)).
  change (recursive_load registry (VStr h)) with (OK (VStr h)).
  change (recursive_load registry (VStr ip)) with (OK (VStr ip)).
  change (recursive_load registry (VStr s)) with (OK (VStr s)).
  cbn [bind]. apply Launch_from_dict_body_OK; try assumption. apply (Hn m Hm).
Qed.

Lemma wf_firework_unfold (tasks : list FireTask) (spec : dict) (i : Z) (ls : list Launch)
    (c : datetime) (s : string) :
  wf_firework registry (mkFireWork tasks spec i ls c s) <->
  Forall (wf_task registry) tasks /\ Forall (spec_entry tasks) spec /\
  dict_in "_tasks" spec = true /\ unique_keys (map fst spec) = true /\
  task_mapping spec = None /\ Forall (wf_launch registry) ls.
Proof.
  cbn [wf_firework].
  assert (H1 : forall l : list FireTask,
             (fix all (l : list FireTask) : Prop :=
                match l with
                | [] => True
                | t :: l' => wf_task registry t /\ all l'
                end) l <-> Forall (wf_task registry) l).
  { induction l as [|x l IH]; [split; [constructor | exact (fun _ => I)]|].
    rewrite IH. split; [intros [Hx Hl]; now constructor | intros H; inversion H; now split]. }
  assert (H2 : forall d : dict,
             (fix all (d : list (string * pyval)) : Prop :=
                match d with
                | [] => True
                | kv :: d' =>
                    (if String.eqb (fst kv) "_tasks"
                     then snd kv = VList (map FireTask_to_dict tasks)
                     else plain registry (snd kv)) /\ all d'
                end) d <-> Forall (spec_entry tasks) d).
  { induction d as [|x d IH]; [split; [constructor | exact (fun _ => I)]|].
    rewrite IH. split; [intros [Hx Hl]; now constructor | intros H; inversion H; now split]. }
  assert (H3 : forall l : list Launch,
             (fix all (l : list Launch) : Prop :=
                match l with
                | [] => True
                | x :: l' => wf_launch registry x /\ all l'
                end) l <-> Forall (wf_launch registry) l).
  { induction l as [|x l IH]; [split; [constructor | exact (fun _ => I)]|].
    rewrite IH. split; [intros [Hx Hl]; now constructor | intros H; inversion H; now split]. }
  now rewrite H1, H2, H3.
Qed.

Lemma rd_tasks (tasks : list FireTask) :
  map recursive_dict (map FireTask_to_dict tasks) = map FireTask_to_dict tasks.
Proof.
  induction tasks as [|t tasks IH]; [reflexivity|]. cbn [map]. rewrite IH. f_equal.
  exact (recursive_dict_idem (VTask t)).
Qed.

Lemma load_tasks (tasks : list FireTask) :
  Forall task_ok tasks -> Forall (wf_task registry) tasks ->
  recursive_load registry (VList (map FireTask_to_dict tasks)) = OK (VList (map VTask tasks)).
Proof.
  intros Hok Hwf. rewrite recursive_load_list, mapM_map, (mapM_Forall _ VTask); [reflexivity|].
  induction Hok as [|t tasks Ht _ IH]; [constructor|].
  inversion Hwf; subst. constructor; [now apply Ht | now apply IH].
Qed.

Lemma load_spec (tasks : list FireTask) (spec : dict) :
  Forall task_ok tasks -> Forall (wf_task registry) tasks ->
  Forall (fun kv => value_ok (snd kv)) spec -> Forall (spec_entry tasks) spec ->
  load_values registry (map (fun kv => (fst kv, recursive_dict (snd kv))) spec) =
  OK (map (spec_loaded tasks) spec).
Proof.
  intros Htok Htwf Hok Hent.
  induction Hok as [|[k v] spec [Hv _] _ IH]; [reflexivity|].
  inversion Hent as [|? ? Hkv Hent']; subst. cbn [map fst snd].
  rewrite load_values_cons, (IH Hent'). unfold spec_entry, spec_loaded in *. cbn [fst snd] in *.
  destruct (String.eqb k "_tasks").
  - subst v. cbn [recursive_dict]. rewrite rd_tasks, load_tasks by assumption. reflexivity.
  - now rewrite (Hv Hkv).
Qed.

Lemma spec_loaded_get (tasks : list FireTask) (spec : dict) :
  dict_in "_tasks" spec = true ->
  dict_get "_tasks" (map (spec_loaded tasks) spec) = Some (VList (map VTask tasks)).
Proof.
  unfold dict_in. induction spec as [|[k v] spec IH]; cbn [dict_get map]; [discriminate|].
  unfold spec_loaded at 1. cbn [fst snd]. rewrite (String.eqb_sym k).
  destruct (String.eqb "_tasks" k) eqn:Hk; cbn [dict_get]; rewrite Hk; [reflexivity | exact IH].
Qed.

Lemma spec_loaded_other (tasks : list FireTask) (k : string) (spec : dict) :
  k <> "_tasks" -> dict_get k (map (spec_loaded tasks) spec) = dict_get k spec.
Proof.
  intros Hne. induction spec as [|[k' v] spec IH]; [reflexivity|].
  cbn [map dict_get]. unfold spec_loaded at 1. cbn [fst snd].
  destruct (String.eqb k' "_tasks") eqn:Hk'; cbn [dict_get].
  - apply String.eqb_eq in Hk'. subst k'. apply String.eqb_neq in Hne. now rewrite Hne.
  - destruct (String.eqb k k'); [reflexivity | exact IH].
Qed.

Lemma spec_loaded_absent (tasks : list FireTask) (spec : dict) :
  list_in "_tasks" (map fst spec) = false -> map (spec_loaded tasks) spec = spec.
Proof.
  induction spec as [|[k v] spec IH]; [reflexivity|]. cbn [map fst list_in existsb].
  intros H. apply orb_false_iff in H as [Hk H]. rewrite (IH H).
  unfold spec_loaded. cbn [fst]. rewrite String.eqb_sym. now rewrite Hk.
Qed.

Lemma spec_loaded_set (tasks : list FireTask) (spec : dict) :
  Forall (spec_entry tasks) spec -> unique_keys (map fst spec) = true ->
  dict_in "_tasks" spec = true ->
  dict_set "_tasks" (VList (map FireTask_to_dict tasks)) (map (spec_loaded tasks) spec) = spec.
Proof.
  unfold dict_in. induction spec as [|[k v] spec IH]; intros Hent Huniq Hin;
    [discriminate Hin|].
  inversion Hent as [|? ? Hkv Hent']; subst.
  cbn [map fst unique_keys] in Huniq. apply andb_true_iff in Huniq as [Hnotin Huniq].
  apply negb_true_iff in Hnotin.
  cbn [map dict_get] in *. unfold spec_loaded at 1. unfold spec_entry in Hkv.
  cbn [fst snd] in *. rewrite (String.eqb_sym k) in *.
  destruct (String.eqb "_tasks" k) eqn:Hk; cbn [dict_set]; rewrite Hk.
  - apply String.eqb_eq in Hk. subst k v. now rewrite spec_loaded_absent.
  - now rewrite IH.
Qed.

Lemma load_launches (ls : list Launch) :
  Forall launch_ok ls -> Forall (wf_launch registry) ls ->
  exists (n : nat) (ls' : list pyval),
    mapM (recursive_load registry) (map Launch_to_dict ls) = OK ls' /\
    length ls' = length ls /\
    forall m, (n <= m)%nat -> mapM (Launch_from_dict registry e m) ls' = OK ls.
Proof.
  intros Hok Hwf. induction Hok as [|l ls Hl _ IH].
  - exists 0%nat, []. split; [reflexivity|]. split; [reflexivity|]. reflexivity.
  - inversion Hwf as [|? ? Hwl Hwf']; subst.
    destruct (IH Hwf') as (n2 & ls' & Hls' & Hlen & Hn2). destruct (Hl Hwl) as [n1 Hn1].
    destruct (Launch_to_dict_mapping l) as (dL & HdL & Hpar).
    assert (Hload : exists dL', load_values registry dL = OK dL').
    { specialize (Hn1 (S n1) (Nat.le_succ_diag_r n1)). rewrite HdL in Hn1.
      cbn [Launch_from_dict] in Hn1.
      apply (recursive_deserialize_OK registry) in Hn1 as (d0 & d0' & Heq & Hd0 & _).
      injection Heq as <-. eauto. }
    destruct Hload as [dL' HdL'].
    exists (Nat.max n1 n2), (VDict dL' :: ls'). cbn [map mapM].
    fold (mapM (recursive_load registry)). rewrite HdL, (load_mapping dL dL' Hpar HdL').
    cbn [bind]. rewrite Hls'. cbn [bind]. split; [reflexivity|].
    split; [cbn [length]; now rewrite Hlen|].
    intros m Hm. cbn [mapM]. fold (mapM (Launch_from_dict registry e m)).
    rewrite (Launch_from_dict_loaded registry e m dL dL' HdL'), <- HdL.
    rewrite Hn1 by lia. cbn [bind]. rewrite Hn2 by lia. reflexivity.
Qed.

Lemma as_tasks_VTask (tasks : list FireTask) :
  as_tasks (VList (map VTask tasks)) = OK (inr tasks).
Proof.
  cbn [as_tasks]. rewrite mapM_map, mapM_Forall_id; [reflexivity|].
  induction tasks; constructor; [reflexivity | assumption].
Qed.

Lemma FireWork_from_dict_body_OK (fl : pyval -> result Launch) (m_dict : dict)
    (tasks : list FireTask) (spec spec' : dict) (i : Z) (ls : list Launch)
    (ls' : list pyval) (c : datetime) (s : string) :
  dict_get "spec" m_dict = Some (VDict spec') ->
  dict_get "_tasks" spec' = Some (VList (map VTask tasks)) ->
  dict_set "_tasks" (VList (map FireTask_to_dict tasks)) spec' = spec ->
  dict_get "launches" m_dict = match ls with [] => None | _ => Some (VList ls') end ->
  length ls' = length ls -> mapM fl ls' = OK ls ->
  dict_get "fw_id" m_dict = Some (VInt i) ->
  dict_get "state" m_dict = (if String.eqb s "WAITING" then None else Some (VStr s)) ->
  dict_get "created_at" m_dict = Some (VTime c) ->
  FireWork_from_dict_body e fl m_dict = OK (mkFireWork tasks spec i ls c s).
Proof.
  intros Hspec Htasks Hset Hl Hlen Hfl Hi Hs Hc. unfold FireWork_from_dict_body, getitem.
  rewrite Hspec. cbn [bind as_dict]. rewrite Htasks. cbn [bind]. rewrite Hl, Hi, Hs, Hc.
  assert (Hlaunches :
            match match ls with [] => None | _ :: _ => Some (VList ls') end with
            | Some (VList (tmp :: l)) => bind (mapM fl (tmp :: l)) (fun ls0 => OK (Some ls0))
            | Some v => if truthy v then Raise TypeError else OK None
            | None => OK None
            end = OK (match ls with [] => None | _ => Some ls end)).
  { destruct ls as [|l0 ls0]; [reflexivity|].
    destruct ls' as [|x ls']; [discriminate Hlen|]. now rewrite Hfl. }
  rewrite Hlaunches. cbn [bind as_int time_arg]. rewrite as_tasks_VTask.
  assert (Hst : (if String.eqb s "WAITING" then OK "WAITING" else as_str (VStr s)) = OK s).
  { destruct (String.eqb s "WAITING") eqn:Hw; [|reflexivity].
    apply String.eqb_eq in Hw. now subst. }
  replace (match (if String.eqb s "WAITING" then None else Some (VStr s)) with
           | Some v => as_str v
           | None => OK "WAITING"
           end) with (OK s : result string)
    by (rewrite <- Hst; destruct (String.eqb s "WAITING"); reflexivity).
  cbn [bind]. unfold FireWork_init. rewrite dict_or_empty_Some, Hset.
  destruct ls; reflexivity.
Qed.

Lemma FireWork_to_dict_unfold (tasks : list FireTask) (spec : dict) (i : Z)
    (ls : list Launch) (c : datetime) (s : string) :
  FireWork_to_dict (mkFireWork tasks spec i ls c s) =
  VDict ([("spec", VDict (map (fun kv => (fst kv, recursive_dict (snd kv))) spec));
          ("fw_id", VInt i); ("created_at", VTime c)] ++
         match ls with
         | [] => []
         | _ => [("launches", VList (map Launch_to_dict ls))]
         end ++
         (if String.eqb s "WAITING" then [] else [("state", VStr s)])).
Proof.
  destruct ls; cbn [FireWork_to_dict]; destruct (String.eqb s "WAITING"); reflexivity.
Qed.

Lemma FireWork_round_trip (tasks : list FireTask) (spec : dict) (i : Z) (ls : list Launch)
    (c : datetime) (s : string) :
  Forall task_ok tasks -> Forall (fun kv => value_ok (snd kv)) spec -> Forall launch_ok ls ->
  firework_ok (mkFireWork tasks spec i ls c s).
Proof.
  intros Htok Hsok Hlok Hwf.
  apply wf_firework_unfold in Hwf as (Htwf & Hent & Hin & Huniq & Htm & Hlwf).
  destruct (load_launches ls Hlok Hlwf) as (n & ls' & Hls' & Hlen & Hn).
  assert (Hspec : recursive_load registry
                    (VDict (map (fun kv => (fst kv, recursive_dict (snd kv))) spec)) =
                  OK (VDict (map (spec_loaded tasks) spec))).
  { rewrite recursive_load_dict, (load_spec tasks spec) by assumption. cbn [bind].
    apply load_object_not_task. unfold task_mapping in *.
    rewrite spec_loaded_other by discriminate. exact Htm. }
  assert (Hlaunches : recursive_load registry (VList (map Launch_to_dict ls)) = OK (VList ls')).
  { now rewrite recursive_load_list, Hls'. }
  exists (S n). intros [|m] Hm; [lia|]. apply le_S_n in Hm.
  rewrite FireWork_to_dict_unfold. cbn [FireWork_from_dict recursive_deserialize].
  destruct ls as [|l0 ls0]; destruct (String.eqb s "WAITING") eqn:Hs; cbn [app];
    rewrite !load_values_cons, load_values_nil, Hspec; rewrite ?Hlaunches; cbn [bind];
    change (recursive_load registry (VInt i)) with (OK (VInt i));
    change (recursive_load registry (VTime c)) with (OK (VTime c));
    change (recursive_load registry (VStr s)) with (OK (VStr s)); cbn [bind];
    apply (FireWork_from_dict_body_OK _ _ tasks spec (map (spec_loaded tasks) spec) i _ ls' c s);
    try reflexivity; try assumption; try (rewrite Hs; reflexivity);
    try (now apply spec_loaded_get); try (now apply spec_loaded_set); try (now apply Hn).
Qed.

Lemma value_ok_prim (v : pyval) :
  recursive_dict v = v -> recursive_load registry v = OK v ->
  match v with VFireWork _ => False | _ => True end -> value_ok v.
Proof.
  intros Hrd Hload Hv. split; [intros _; now rewrite Hrd|]. now destruct v.
Qed.

Lemma value_ok_list (l : list pyval) : Forall value_ok l -> value_ok (VList l).
Proof.
  intros IH. split; [|exact I]. intros Hp. apply plain_list in Hp.
  cbn [recursive_dict]. rewrite recursive_load_list, mapM_map, mapM_Forall_id; [reflexivity|].
  induction IH as [|x l [Hx _] _ IHl]; [constructor|].
  inversion Hp; subst. constructor; [now apply Hx | now apply IHl].
Qed.

Lemma value_ok_dict (d : dict) : Forall (fun kv => value_ok (snd kv)) d -> value_ok (VDict d).
Proof.
  intros IH. split; [|exact I]. intros Hp. apply plain_dict in Hp as [Hp Htm].
  cbn [recursive_dict]. apply load_plain_dict; [now apply value_ok_loads_back | assumption..].
Qed.

Lemma value_ok_task (t : FireTask) : task_ok t -> value_ok (VTask t).
Proof. intros Ht. split; [|exact I]. intros Hp. now apply Ht. Qed.

Lemma value_ok_object (v : pyval) :
  match v with VWorker _ | VAction _ | VLaunch _ => True | _ => False end -> value_ok v.
Proof. destruct v; try contradiction; intros _; (split; [intros [] | exact I]). Qed.

Lemma value_ok_firework (f : FireWork) : firework_ok f -> value_ok (VFireWork f).
Proof. intros Hf. split; [intros [] | exact Hf]. Qed.

Lemma task_ok_mk (n : string) (p : dict) :
  Forall (fun kv => value_ok (snd kv)) p -> task_ok (mkFireTask n p).
Proof. intros IH Hwf. apply load_task; [now apply value_ok_loads_back | exact Hwf]. Qed.

Ltac round_trip_cases :=
  first
    [ exact (fun l => value_ok_list l)
    | exact (fun d => value_ok_dict d)
    | exact (fun t => value_ok_task t)
    | exact (fun f => value_ok_firework f)
    | exact task_ok_mk
    | exact FWAction_round_trip
    | exact FireWork_round_trip
    | exact Launch_round_trip
    | (intros; apply value_ok_object; exact I)
    | (intros; apply value_ok_prim; [reflexivity | reflexivity | exact I]) ].

Lemma round_trip_value (v : pyval) : value_ok v.
Proof.
  apply (pyval_mutual value_ok task_ok action_ok firework_ok launch_ok); round_trip_cases.
Qed.

Lemma round_trip_task_ok (t : FireTask) : task_ok t.
Proof using registry e.
  apply (FireTask_mutual value_ok task_ok action_ok firework_ok launch_ok); round_trip_cases.
Qed.

Lemma round_trip_action (a : FWAction) : action_ok a.
Proof.
  apply (FWAction_mutual value_ok task_ok action_ok firework_ok launch_ok); round_trip_cases.
Qed.

Lemma round_trip_firework (f : FireWork) : firework_ok f.
Proof.
  apply (FireWork_mutual value_ok task_ok action_ok firework_ok launch_ok); round_trip_cases.
Qed.

Lemma round_trip_launch (l : Launch) : launch_ok l.
Proof.
  apply (Launch_mutual value_ok task_ok action_ok firework_ok launch_ok); round_trip_cases.
Qed.

Lemma round_trip_task (t : FireTask) :
  wf_task registry t ->
  FireTask_from_dict registry (FireTask_fw_name t) (FireTask_to_dict t) = OK t.
Proof using registry e.
  destruct t as [n p]. intros Hwf. pose proof Hwf as Hwf'.
  apply wf_task_unfold in Hwf' as (Hreg & Hkey & Hp & Htm).
  rewrite FireTask_to_dict_unfold.
  rewrite dict_get_set_same by (rewrite dict_get_map, Hkey; reflexivity).
  unfold FireTask_from_dict. cbn [recursive_deserialize].
  rewrite load_values_cons, load_values_nil, load_plain_dict; try assumption.
  - cbn [bind getitem dict_get String.eqb Ascii.eqb Bool.eqb dict_arg FireTask_fw_name].
    unfold FireTaskBase_init. now rewrite dict_or_empty_Some.
  - apply value_ok_loads_back. clear.
    induction p as [|kv p IH];
      [apply List.Forall_nil | apply List.Forall_cons; [apply round_trip_value | exact IH]].
Qed.

End RoundTrip.

(** ** Serialization round trips *)

Lemma sample_task_wf : wf_task sample_registry sample_task.
Proof. cbn. repeat split. Qed.

Lemma sample_step_wf : wf_firework sample_registry sample_step.
Proof. cbn. repeat split. Qed.

Lemma sample_action_wf : wf_action sample_registry sample_action.
Proof. cbn. repeat split. Qed.

Lemma sample_launch_wf (i : Z) : wf_launch sample_registry (sample_launch i).
Proof. cbn. repeat split; discriminate. Qed.

Lemma sample_step_launched_wf : wf_firework sample_registry sample_step_launched.
Proof. cbn. repeat split; discriminate. Qed.




(** ** The step embedded in an action *)

(** C7. Deserializing an action mapping whose (reconstructed) mod_spec has
    the key create_fw yields, whenever the value under that key deserializes
    as a step, an action whose mod_spec holds that live step under create_fw;
    when mod_spec lacks the key it is carried through as it is.  Conversely a
    successful deserialization is always of one of these two forms. *)
Theorem create_fw_is_a_live_step (registry : list string) (e : env) (fuel : nat) :
  (forall (d d' ms : dict) (c : string) (sd : pyval) (sdo : option dict) (v : pyval)
          (fw : FireWork),
     load_values registry d = OK d' ->
     dict_get "mod_spec" d' = Some (VDict ms) ->
     dict_get "action" d' = Some (VStr c) -> list_in c commands = true ->
     dict_get "stored_data" d' = Some sd -> dict_arg sd = OK sdo ->
     dict_get "create_fw" ms = Some v ->
     FireWork_from_dict registry e fuel v = OK fw ->
     FWAction_from_dict registry e (S fuel) (VDict d) =
       OK (mkFWAction c (dict_or_empty sdo) (dict_set "create_fw" (VFireWork fw) ms)) /\
     dict_get "create_fw" (dict_set "create_fw" (VFireWork fw) ms) = Some (VFireWork fw)) /\
  (forall (d d' ms : dict) (c : string) (sd : pyval) (sdo : option dict),
     load_values registry d = OK d' ->
     dict_get "mod_spec" d' = Some (VDict ms) ->
     dict_get "action" d' = Some (VStr c) -> list_in c commands = true ->
     dict_get "stored_data" d' = Some sd -> dict_arg sd = OK sdo ->
     dict_get "create_fw" ms = None ->
     FWAction_from_dict registry e (S fuel) (VDict d) =
       OK (mkFWAction c (dict_or_empty sdo) ms)) /\
  (forall (m : pyval) (a : FWAction),
     FWAction_from_dict registry e (S fuel) m = OK a ->
     exists (d d' ms : dict),
       m = VDict d /\ load_values registry d = OK d' /\
       dict_get "mod_spec" d' = Some (VDict ms) /\
       match dict_get "create_fw" ms with
       | Some v =>
           exists fw, FireWork_from_dict registry e fuel v = OK fw /\
                      FWAction_mod_spec a = dict_set "create_fw" (VFireWork fw) ms /\
                      dict_get "create_fw" (FWAction_mod_spec a) = Some (VFireWork fw)
       | None => FWAction_mod_spec a = ms
       end).
Proof.
  assert (Hnew : forall (c : string) (sdo : option dict) (ms0 : dict),
             list_in c commands = true ->
             FWAction_new c sdo (Some ms0) = OK (mkFWAction c (dict_or_empty sdo) ms0)).
  { intros c sdo ms0 Hcmd. unfold FWAction_new, construct. rewrite FWAction_init_run, Hcmd.
    cbn [fst]. now rewrite dict_or_empty_Some. }
  split; [|split].
  - intros d d' ms c sd sdo v fw Hd' Hms Hc Hcmd Hsd Hsdo Hv Hfw.
    cbn [FWAction_from_dict recursive_deserialize]. rewrite Hd'. cbn [bind].
    unfold FWAction_from_dict_body, getitem, dict_in. rewrite Hms, Hc, Hsd.
    cbn [bind as_dict as_str]. rewrite Hsdo, Hv. cbn [bind]. rewrite Hfw. cbn [bind].
    split; [now apply Hnew | apply dict_get_set_eq].
  - intros d d' ms c sd sdo Hd' Hms Hc Hcmd Hsd Hsdo Hv.
    cbn [FWAction_from_dict recursive_deserialize]. rewrite Hd'. cbn [bind].
    unfold FWAction_from_dict_body, getitem, dict_in. rewrite Hms, Hc, Hsd.
    cbn [bind as_dict as_str]. rewrite Hsdo, Hv. cbn [bind]. now apply Hnew.
  - intros m a Hfrom. cbn [FWAction_from_dict] in Hfrom.
    apply recursive_deserialize_OK in Hfrom as (d & d' & -> & Hd' & Hbody).
    unfold FWAction_from_dict_body in Hbody.
    apply bind_OK in Hbody as (v0 & Hget & Hbody).
    apply bind_OK in Hbody as (ms & Hms & Hbody).
    destruct v0; try discriminate Hms. injection Hms as ->.
    unfold getitem in Hget. destruct (dict_get "mod_spec" d') as [v1|] eqn:Hv1; [|discriminate].
    injection Hget as ->.
    apply bind_OK in Hbody as (ms1 & Hms1 & Hbody).
    apply bind_OK in Hbody as (cmd & _ & Hbody).
    apply bind_OK in Hbody as (sd & _ & Hbody).
    apply bind_OK in Hbody as (c & _ & Hbody).
    apply bind_OK in Hbody as (sdo & _ & Hbody).
    unfold FWAction_new, construct in Hbody. rewrite FWAction_init_run in Hbody.
    destruct (list_in c commands); [|discriminate]. cbn [fst] in Hbody.
    injection Hbody as <-. cbn [FWAction_mod_spec].
    replace (match ms1 with [] => [] | x :: d0 => x :: d0 end) with ms1 by now destruct ms1.
    exists d, d', ms. split; [reflexivity|]. split; [assumption|]. split; [exact Hv1|].
    unfold dict_in, getitem in Hms1. destruct (dict_get "create_fw" ms) as [v|].
    + apply bind_OK in Hms1 as (v' & Hv' & Hms1). injection Hv' as <-.
      apply bind_OK in Hms1 as (fw & Hfw & Hms1). injection Hms1 as <-.
      exists fw. split; [assumption|]. split; [reflexivity | apply dict_get_set_eq].
    + now injection Hms1 as <-.
Qed.

Lemma create_fw_is_a_live_step_witness :
  FWAction_from_dict sample_registry sample_env 2 (FWAction_to_dict sample_action) =
    OK sample_action /\
  dict_get "create_fw" (FWAction_mod_spec sample_action) = Some (VFireWork sample_step).
Proof.
  pose proof (proj1 (create_fw_is_a_live_step sample_registry sample_env 1)
                [("action", VStr "CREATE"); ("stored_data", VDict [("exit", VInt 0)]);
                 ("mod_spec", VDict [("create_fw", FireWork_to_dict sample_step)])]) as H.
  specialize (H _ _ "CREATE" (VDict [("exit", VInt 0)]) (Some [("exit", VInt 0)]) _ sample_step
                eq_refl eq_refl eq_refl eq_refl eq_refl eq_refl eq_refl eq_refl).
  exact H.
Defined.

(** ** The storage form of a step *)

Lemma Forall_total {A} (P : A -> Prop) (l : list A) : (forall x, P x) -> Forall P l.
Proof. intros H. induction l; constructor; [apply H | assumption]. Qed.

Lemma load_ids (registry : list string) (ids : list (option Z)) :
  recursive_load registry (VList (map opt_int ids)) = OK (VList (map opt_int ids)).
Proof.
  rewrite recursive_load_list, mapM_map, (mapM_Forall _ opt_int); [reflexivity|].
  induction ids as [|i ids IH]; constructor; [now destruct i | exact IH].
Qed.

Lemma load_ints (registry : list string) (ids : list Z) :
  recursive_load registry (VList (map VInt ids)) = OK (VList (map VInt ids)).
Proof.
  rewrite recursive_load_list, mapM_map, (mapM_Forall _ VInt); [reflexivity|].
  now apply Forall_total.
Qed.

Lemma Launch_from_dict_id (registry : list string) (e : env) (fuel : nat) (i : option Z)
    (l : Launch) :
  Launch_from_dict registry e fuel (opt_int i) <> OK l.
Proof. destruct fuel, i; discriminate. Qed.

Lemma Launch_from_dict_id_raises (registry : list string) (e : env) (fuel : nat) (i : option Z) :
  Launch_from_dict registry e (S fuel) (opt_int i) = Raise TypeError.
Proof. now destruct i. Qed.

Lemma FireWork_to_db_dict_unfold (tasks : list FireTask) (spec : dict) (i : Z)
    (ls : list Launch) (c : datetime) (s : string) :
  exists rest : dict,
    FireWork_to_db_dict (mkFireWork tasks spec i ls c s) =
    VDict ([("spec", VDict (map (fun kv => (fst kv, recursive_dict (snd kv))) spec));
            ("fw_id", VInt i); ("created_at", VTime c)] ++ rest) /\
    (rest = [("launches", VList (map (fun l => opt_int (Launch_launch_id l)) ls));
             ("state", VStr s)] \/
     rest = [("state", VStr s);
             ("launches", VList (map (fun l => opt_int (Launch_launch_id l)) ls))]).
Proof.
  unfold FireWork_to_db_dict. rewrite FireWork_to_dict_unfold.
  cbn [FireWork_launches FireWork_state].
  destruct ls as [|l0 ls0]; destruct (String.eqb s "WAITING") eqn:Hs;
    cbn [app dict_set String.eqb Ascii.eqb Bool.eqb]; eexists; split; try reflexivity; auto.
Qed.

(** The claim of C6 as the specification states it fails on the storage form
    of a step with three launches: [FireWork.from_dict] hands each element of
    [launches] to [Launch.from_dict], which needs a mapping. *)
Lemma storage_form_with_ids_is_rejected :
  dict_get "launches"
    (match FireWork_to_db_dict sample_step_launched with VDict d => d | _ => [] end) =
    Some (VList [VInt 1; VInt 2; VInt 3]) /\
  FireWork_from_dict sample_registry sample_env 5 (FireWork_to_db_dict sample_step_launched) =
    Raise TypeError.
Proof. split; reflexivity. Qed.

(** C6 (amended). Deserializing the storage form of a well-formed step that
    has no launches succeeds and gives the step back, with no launches.  The
    storage form of a step that has launches, whose launches field is a list
    of launch ids, is rejected with TypeError, and no mapping whose launches
    field is a non-empty list of integers deserializes to a step: the ids are
    never exposed by the deserialized step. *)
Theorem storage_form_deserialization (registry : list string) (e : env) :
  (forall f : FireWork,
     wf_firework registry f -> FireWork_launches f = [] ->
     exists n, forall m, (n <= m)%nat ->
       FireWork_from_dict registry e m (FireWork_to_db_dict f) = OK f) /\
  (forall (f : FireWork) (fuel : nat),
     wf_firework registry f -> FireWork_launches f <> [] ->
     FireWork_from_dict registry e (S (S fuel)) (FireWork_to_db_dict f) = Raise TypeError) /\
  (forall (fuel : nat) (d : dict) (ids : list Z) (f : FireWork),
     dict_get "launches" d = Some (VList (map VInt ids)) -> ids <> [] ->
     FireWork_from_dict registry e fuel (VDict d) <> OK f).
Proof.
  split; [|split].
  - intros [tasks spec i ls c s] Hwf Hls. cbn [FireWork_launches] in Hls. subst ls.
    pose proof Hwf as Hwf'.
    apply wf_firework_unfold in Hwf' as (Htwf & Hent & Hin & Huniq & Htm & _).
    assert (Hspec : recursive_load registry
                      (VDict (map (fun kv => (fst kv, recursive_dict (snd kv))) spec)) =
                    OK (VDict (map (spec_loaded tasks) spec))).
    { rewrite recursive_load_dict, (load_spec registry e tasks spec); try assumption.
      - cbn [bind]. apply load_object_not_task. unfold task_mapping in *.
        rewrite spec_loaded_other by discriminate. exact Htm.
      - apply Forall_total. exact (round_trip_task_ok registry e).
      - apply Forall_total. intros kv. exact (round_trip_value registry e (snd kv)). }
    exists 1%nat. intros [|m] Hm; [lia|].
    destruct (FireWork_to_db_dict_unfold tasks spec i [] c s) as (rest & -> & Hrest).
    cbn [FireWork_from_dict recursive_deserialize].
    destruct Hrest as [-> | ->]; cbn [app map];
      rewrite !load_values_cons, load_values_nil, Hspec;
      change (recursive_load registry (VInt i)) with (OK (VInt i));
      change (recursive_load registry (VTime c)) with (OK (VTime c));
      change (recursive_load registry (VStr s)) with (OK (VStr s));
      change (recursive_load registry (VList [])) with (OK (VList []));
      cbn [bind]; unfold FireWork_from_dict_body, getitem;
      cbn [dict_get String.eqb Ascii.eqb Bool.eqb bind as_dict];
      rewrite spec_loaded_get by assumption;
      cbn [bind truthy as_int as_str time_arg]; rewrite as_tasks_VTask; cbn [bind];
      unfold FireWork_init; rewrite dict_or_empty_Some, (spec_loaded_set registry) by assumption;
      reflexivity.
  - intros [tasks spec i ls c s] fuel Hwf Hls. cbn [FireWork_launches] in Hls.
    pose proof Hwf as Hwf'.
    apply wf_firework_unfold in Hwf' as (Htwf & Hent & Hin & Huniq & Htm & _).
    assert (Hspec : recursive_load registry
                      (VDict (map (fun kv => (fst kv, recursive_dict (snd kv))) spec)) =
                    OK (VDict (map (spec_loaded tasks) spec))).
    { rewrite recursive_load_dict, (load_spec registry e tasks spec); try assumption.
      - cbn [bind]. apply load_object_not_task. unfold task_mapping in *.
        rewrite spec_loaded_other by discriminate. exact Htm.
      - apply Forall_total. exact (round_trip_task_ok registry e).
      - apply Forall_total. intros kv. exact (round_trip_value registry e (snd kv)). }
    destruct (FireWork_to_db_dict_unfold tasks spec i ls c s) as (rest & -> & Hrest).
    destruct ls as [|l0 ls0]; [contradiction|].
    cbn [FireWork_from_dict recursive_deserialize].
    rewrite <- (map_map Launch_launch_id opt_int) in Hrest.
    destruct Hrest as [-> | ->]; cbn [app];
      rewrite !load_values_cons, load_values_nil, Hspec, load_ids;
      change (recursive_load registry (VInt i)) with (OK (VInt i));
      change (recursive_load registry (VTime c)) with (OK (VTime c));
      change (recursive_load registry (VStr s)) with (OK (VStr s));
      cbn [bind]; unfold FireWork_from_dict_body, getitem;
      cbn [dict_get String.eqb Ascii.eqb Bool.eqb bind as_dict];
      rewrite spec_loaded_get by assumption; cbn [bind map];
      rewrite (mapM_raise _ _ _ TypeError) by apply Launch_from_dict_id_raises;
      reflexivity.
  - intros fuel d ids f Hget Hids Hfrom. destruct fuel as [|fuel]; [discriminate|].
    cbn [FireWork_from_dict] in Hfrom.
    apply recursive_deserialize_OK in Hfrom as (d0 & d' & Heq & Hd' & Hbody).
    injection Heq as <-.
    assert (Hget' : dict_get "launches" d' = Some (VList (map VInt ids))).
    { apply load_values_Forall2 in Hd'.
      pose proof (dict_get_Forall2 _ "launches" d d' Hd') as Hrel. rewrite Hget in Hrel.
      destruct (dict_get "launches" d') as [v'|]; [|contradiction].
      cbv beta in Hrel. rewrite load_ints in Hrel. now injection Hrel as <-. }
    unfold FireWork_from_dict_body in Hbody.
    apply bind_OK in Hbody as (v0 & _ & Hbody). apply bind_OK in Hbody as (sp & _ & Hbody).
    apply bind_OK in Hbody as (ts & _ & Hbody). apply bind_OK in Hbody as (lo & Hlo & _).
    rewrite Hget' in Hlo. destruct ids as [|i ids]; [contradiction|]. cbn [map] in Hlo.
    apply bind_OK in Hlo as (ls & Hls & _). apply mapM_Forall2 in Hls.
    inversion Hls as [|? l ? ? Hl]; subst.
    exact (Launch_from_dict_id registry e fuel (Some i) l Hl).
Qed.

(** * Further properties of the module *)

(** ** Timing queries scan for the first matching entry *)

Lemma Launch_get_time_loop (states : string + list string) (upd : bool) (L : Launch) :
  Launch_get_time states upd L =
  match find (state_in states) (Launch_state_history L) with
  | Some d => Some (if upd then updated_at d else created_at d)
  | None => None
  end.
Proof.
  unfold Launch_get_time, state_in.
  induction (Launch_state_history L) as [|d h IH]; simpl; [reflexivity|].
  destruct (list_in (state d) (states_list states)); [now destruct upd | exact IH].
Qed.

Lemma find_first {A} (f : A -> bool) (l : list A) (x : A) :
  find f l = Some x <->
  exists l1 l2, l = l1 ++ x :: l2 /\ Forall (fun y => f y = false) l1 /\ f x = true.
Proof.
  induction l as [|a l IH]; simpl.
  - split; [discriminate|]. intros (l1 & l2 & H & _). now destruct l1.
  - destruct (f a) eqn:Ha.
    + split.
      * intros H. injection H as <-. exists [], l. repeat split; [constructor | exact Ha].
      * intros (l1 & l2 & H & Hl1 & Hx). destruct l1 as [|b l1]; simpl in H.
        -- now injection H as -> _.
        -- injection H as -> _. inversion Hl1; congruence.
    + rewrite IH. split.
      * intros (l1 & l2 & -> & Hl1 & Hx). exists (a :: l1), l2.
        repeat split; [now constructor | exact Hx].
      * intros (l1 & l2 & H & Hl1 & Hx). destruct l1 as [|b l1]; simpl in H.
        -- injection H as -> _. congruence.
        -- injection H as -> ->. inversion Hl1; subst. eauto.
Qed.

Lemma find_none {A} (f : A -> bool) (l : list A) :
  find f l = None <-> Forall (fun y => f y = false) l.
Proof.
  induction l as [|a l IH]; simpl; [split; [constructor | reflexivity]|].
  destruct (f a) eqn:Ha.
  - split; [discriminate|]. intros H. inversion H; congruence.
  - rewrite IH. split; [now constructor | intros H; now inversion H].
Qed.

(** X1. A timing query answers with the first entry of state_history whose
    state is among the requested ones (its updated_at or created_at as asked),
    and with nothing exactly when no entry is in such a state. *)
Theorem get_time_first_match (states : string + list string) (upd : bool) (L : Launch) :
  (forall t : datetime,
     Launch_get_time states upd L = Some t <->
     exists (h1 : list hist) (d : hist) (h2 : list hist),
       Launch_state_history L = h1 ++ d :: h2 /\
       Forall (fun x => state_in states x = false) h1 /\
       state_in states d = true /\
       t = if upd then updated_at d else created_at d) /\
  (Launch_get_time states upd L = None <->
   Forall (fun x => state_in states x = false) (Launch_state_history L)).
Proof.
  rewrite Launch_get_time_loop. split.
  - intros t. destruct (find (state_in states) (Launch_state_history L)) as [d|] eqn:Hf.
    + split.
      * intros H. injection H as <-. apply find_first in Hf as (l1 & l2 & H & Hl1 & Hd).
        exists l1, d, l2. now repeat split.
      * intros (h1 & d' & h2 & H & Hh1 & Hd' & ->).
        assert (Hf' : find (state_in states) (Launch_state_history L) = Some d')
          by (apply find_first; eauto).
        rewrite Hf in Hf'. now injection Hf' as ->.
    + split; [discriminate|]. intros (h1 & d' & h2 & H & Hh1 & Hd' & _).
      assert (Hf' : find (state_in states) (Launch_state_history L) = Some d')
        by (apply find_first; eauto).
      rewrite Hf in Hf'. discriminate.
  - rewrite <- find_none. destruct (find (state_in states) (Launch_state_history L));
      split; intros H; congruence.
Qed.

Lemma Launch_get_time_None (states : string + list string) (upd : bool) (L : Launch) :
  Launch_get_time states upd L = None <->
  Forall (fun x => state_in states x = false) (Launch_state_history L).
Proof.
  rewrite Launch_get_time_loop, <- find_none.
  destruct (find (state_in states) (Launch_state_history L)); split; intros H; congruence.
Qed.

Lemma state_in_one (s : string) (d : hist) : state_in (inl s) d = String.eqb (state d) s.
Proof. unfold state_in, list_in. simpl. apply orb_false_r. Qed.

Lemma not_in_state (s : string) (h : list hist) :
  Forall (fun d => state d <> s) h <-> Forall (fun x => state_in (inl s) x = false) h.
Proof.
  split; apply List.Forall_impl; intros d; rewrite state_in_one.
  - apply String.eqb_neq.
  - intros H. now apply String.eqb_neq.
Qed.

(** X2. When no entry of state_history is in state RUNNING, time_start,
    runtime_secs and last_pinged are all absent. *)
Theorem never_started (L : Launch) :
  Forall (fun d => state d <> "RUNNING") (Launch_state_history L) ->
  Launch_time_start L = None /\ Launch_runtime_secs L = None /\ Launch_last_pinged L = None.
Proof.
  intros H. apply not_in_state in H.
  assert (Hs : Launch_time_start L = None) by now apply Launch_get_time_None.
  split; [exact Hs|]. split; [|now apply Launch_get_time_None].
  unfold Launch_runtime_secs. now rewrite Hs.
Qed.

Lemma never_started_witness :
  Launch_time_start
    (mkLaunch None None "n" "i" "/tmp/launch" None
       [mkHist "READY" 1 1; mkHist "RESERVED" 2 2] "RESERVED" None) = None /\
  Launch_runtime_secs
    (mkLaunch None None "n" "i" "/tmp/launch" None
       [mkHist "READY" 1 1; mkHist "RESERVED" 2 2] "RESERVED" None) = None /\
  Launch_last_pinged
    (mkLaunch None None "n" "i" "/tmp/launch" None
       [mkHist "READY" 1 1; mkHist "RESERVED" 2 2] "RESERVED" None) = None.
Proof. apply never_started. repeat constructor; discriminate. Defined.

(** X3. queuedtime_secs is absent when the launch was never RESERVED; when it
    was reserved at t but never RUNNING, it is the time from t to the current
    clock reading; when it was also started at t', it is t' - t whatever the
    clock says. *)
Theorem queuedtime_cases (e : env) (L : Launch) :
  (Forall (fun d => state d <> "RESERVED") (Launch_state_history L) ->
   Launch_queuedtime_secs e L = None) /\
  (forall t : datetime,
     Launch_time_reserved L = Some t ->
     Forall (fun d => state d <> "RUNNING") (Launch_state_history L) ->
     Launch_queuedtime_secs e L = Some (total_seconds (utcnow e - t))) /\
  (forall t t' : datetime,
     Launch_time_reserved L = Some t -> Launch_time_start L = Some t' ->
     Launch_queuedtime_secs e L = Some (total_seconds (t' - t))).
Proof.
  unfold Launch_queuedtime_secs. split; [|split].
  - intros H. apply not_in_state in H.
    assert (Hr : Launch_time_reserved L = None) by now apply Launch_get_time_None.
    now rewrite Hr.
  - intros t Ht H. apply not_in_state in H.
    assert (Hs : Launch_time_start L = None) by now apply Launch_get_time_None.
    now rewrite Ht, Hs.
  - intros t t' Ht Ht'. now rewrite Ht, Ht'.
Qed.

Lemma state_in_end (d : hist) :
  state_in (inr ["COMPLETED"; "FIZZLED"]) d = false <->
  state d <> "COMPLETED" /\ state d <> "FIZZLED".
Proof.
  unfold state_in, list_in. simpl. rewrite orb_false_r, orb_false_iff.
  now rewrite !String.eqb_neq.
Qed.

(** X4. runtime_secs is absent exactly when state_history has no RUNNING
    entry or has no COMPLETED or FIZZLED entry; otherwise it is the time from
    the first RUNNING entry to the first COMPLETED or FIZZLED entry. *)
Theorem runtime_secs_defined (L : Launch) :
  (Launch_runtime_secs L = None <->
   Forall (fun d => state d <> "RUNNING") (Launch_state_history L) \/
   Forall (fun d => state d <> "COMPLETED" /\ state d <> "FIZZLED") (Launch_state_history L)) /\
  (forall q : Q,
     Launch_runtime_secs L = Some q ->
     exists t t' : datetime,
       Launch_time_start L = Some t /\ Launch_time_end L = Some t' /\
       q = total_seconds (t' - t)).
Proof.
  assert (Hend : Launch_time_end L = None <->
                 Forall (fun d => state d <> "COMPLETED" /\ state d <> "FIZZLED")
                   (Launch_state_history L)).
  { unfold Launch_time_end. rewrite Launch_get_time_None.
    split; apply List.Forall_impl; intros d; apply state_in_end. }
  assert (Hstart : Launch_time_start L = None <->
                   Forall (fun d => state d <> "RUNNING") (Launch_state_history L)).
  { unfold Launch_time_start. now rewrite Launch_get_time_None, not_in_state. }
  unfold Launch_runtime_secs. rewrite <- Hend, <- Hstart.
  destruct (Launch_time_start L) as [t|], (Launch_time_end L) as [t'|]; (split; [split|]);
    try (intros q Hq; first [discriminate Hq | injection Hq as <-; eauto]);
    try (intros _; reflexivity);
    try (intros [H|H]; discriminate H);
    try (intros H; first [discriminate H | auto]).
Qed.

(** ** The history only grows *)

Lemma update_state_history_cases (e : env) (v : string) (h : list hist) :
  (last_state h = Some v /\ update_state_history e v h = h) \/
  (last_state h <> Some v /\
   update_state_history e v h = h ++ [mkHist v (utcnow e) (utcnow e)]).
Proof.
  unfold update_state_history. fold (last_state h).
  destruct (last_state h) as [s|] eqn:Hs; simpl.
  - destruct (String.eqb v s) eqn:Hv; simpl.
    + apply String.eqb_eq in Hv. subst. now left.
    + apply String.eqb_neq in Hv. right. split; [congruence | reflexivity].
  - right. split; [discriminate | reflexivity].
Qed.

Lemma Launch_touch_history_inv (e : env) (L L' : Launch) :
  Launch_touch_history e L = OK L' ->
  exists (h : list hist) (d : hist),
    Launch_state_history L = h ++ [d] /\
    L' = Launch_with_history L (h ++ [hist_touch (utcnow e) d]).
Proof.
  intros H. destruct (Launch_state_history L) as [|x h0] eqn:Hh.
  - unfold Launch_touch_history in H. rewrite Hh in H. discriminate.
  - destruct (nonempty_snoc (x :: h0)) as (h & d & Hsnoc); [discriminate|].
    rewrite Hsnoc in Hh. rewrite (Launch_touch_history_snoc e L h d Hh) in H.
    injection H as <-. eauto.
Qed.

Lemma Launch_with_history_history (L : Launch) (h : list hist) :
  Launch_state_history (Launch_with_history L h) = h.
Proof. now destruct L. Qed.

Lemma Launch_apply_keys (op : Launch_op) (L L' : Launch) :
  Launch_apply op L = OK L' ->
  exists rest, map hist_key (Launch_state_history L') =
               map hist_key (Launch_state_history L) ++ rest.
Proof.
  destruct op as [e v|e]; simpl; intros H.
  - injection H as <-. rewrite Launch_set_state_history.
    destruct (update_state_history_cases e v (Launch_state_history L)) as [[_ ->]|[_ ->]].
    + exists []. now rewrite app_nil_r.
    + rewrite map_app. eauto.
  - apply Launch_touch_history_inv in H as (h & d & Hh & ->).
    rewrite Launch_with_history_history, Hh, !map_app. exists []. now rewrite app_nil_r.
Qed.

Lemma Launch_run_keys (ops : list Launch_op) (L L' : Launch) :
  Launch_run ops L = OK L' ->
  exists rest, map hist_key (Launch_state_history L') =
               map hist_key (Launch_state_history L) ++ rest.
Proof.
  revert L. induction ops as [|op ops IH]; intros L H; simpl in H.
  - injection H as <-. exists []. now rewrite app_nil_r.
  - apply bind_OK in H as (L1 & H1 & H). apply Launch_apply_keys in H1 as [r1 Hr1].
    apply IH in H as [r2 Hr2]. exists (r1 ++ r2). now rewrite Hr2, Hr1, app_assoc.
Qed.

(** X5. State assignments and touches never remove or rewrite what a
    history entry records of a state change: the sequence of (state,
    created_at) pairs before any sequence of operations is a prefix of the
    sequence after it. *)
Theorem history_is_append_only (ops : list Launch_op) (L L' : Launch) :
  Launch_run ops L = OK L' ->
  exists rest : list (string * datetime),
    map hist_key (Launch_state_history L') = map hist_key (Launch_state_history L) ++ rest.
Proof. apply Launch_run_keys. Qed.

Lemma history_is_append_only_witness :
  exists rest : list (string * datetime),
    map hist_key
      [mkHist "RESERVED" 1 1; mkHist "RUNNING" 5 9; mkHist "COMPLETED" 12 12] =
    map hist_key [mkHist "RESERVED" 1 1] ++ rest.
Proof.
  apply (history_is_append_only
           [Assign (mkEnv 5 "n" "i") "RUNNING"; Touch (mkEnv 9 "n" "i");
            Assign (mkEnv 12 "n" "i") "COMPLETED"]
           (mkLaunch None None "n" "i" "/tmp/launch" None [mkHist "RESERVED" 1 1]
              "RESERVED" None)
           (mkLaunch None None "n" "i" "/tmp/launch" None
              [mkHist "RESERVED" 1 1; mkHist "RUNNING" 5 9; mkHist "COMPLETED" 12 12]
              "COMPLETED" None)).
  reflexivity.
Defined.

Lemma Launch_get_time_keys (states : string + list string) (L : Launch) :
  Launch_get_time states false L =
  option_map snd
    (find (fun k => list_in (fst k) (states_list states))
       (map hist_key (Launch_state_history L))).
Proof.
  rewrite Launch_get_time_loop. unfold state_in.
  induction (Launch_state_history L) as [|d h IH]; simpl; [reflexivity|].
  destruct (list_in (state d) (states_list states)); [reflexivity | exact IH].
Qed.

Lemma find_app_Some {A} (f : A -> bool) (l r : list A) (x : A) :
  find f l = Some x -> find f (l ++ r) = Some x.
Proof.
  induction l as [|a l IH]; simpl; [discriminate|].
  destruct (f a); [trivial | exact IH].
Qed.

(** X6. Once a timing query based on created_at (time_start, time_end,
    time_reserved, time_ready) has an answer, no later state assignment or
    touch changes it. *)
Theorem timing_is_stable (states : string + list string) (ops : list Launch_op)
    (L L' : Launch) (t : datetime) :
  Launch_get_time states false L = Some t ->
  Launch_run ops L = OK L' ->
  Launch_get_time states false L' = Some t.
Proof.
  intros Ht Hrun. apply Launch_run_keys in Hrun as [rest Hrest].
  rewrite Launch_get_time_keys in *. rewrite Hrest.
  destruct (find (fun k => list_in (fst k) (states_list states))
              (map hist_key (Launch_state_history L))) as [k|] eqn:Hk; [|discriminate].
  now rewrite (find_app_Some _ _ rest k Hk).
Qed.

Lemma timing_is_stable_witness :
  Launch_get_time (inl "RUNNING") false
    (mkLaunch None None "n" "i" "/tmp/launch" None
       [mkHist "RUNNING" 5 9; mkHist "READY" 12 12; mkHist "RUNNING" 20 20]
       "RUNNING" None) = Some 5%Z.
Proof.
  apply (timing_is_stable (inl "RUNNING")
           [Touch (mkEnv 9 "n" "i"); Assign (mkEnv 12 "n" "i") "READY";
            Assign (mkEnv 20 "n" "i") "RUNNING"]
           (mkLaunch None None "n" "i" "/tmp/launch" None [mkHist "RUNNING" 5 5]
              "RUNNING" None)); reflexivity.
Defined.

(** X7. Construction keeps the supplied history entries as they are and
    appends at most one entry: none when the last supplied entry is already in
    the requested state, otherwise one entry in that state stamped with the
    current time. *)
Theorem construction_keeps_history (e : env) (st launch_dir : string)
    (fworker : option FWorker) (host ip : option string) (action : option FWAction)
    (state_history : option (list hist)) (launch_id fw_id : option Z) (L : Launch) :
  Launch_new e st launch_dir fworker host ip action state_history launch_id fw_id = OK L ->
  (last_state (list_or_empty state_history) = Some st /\
   Launch_state_history L = list_or_empty state_history) \/
  (last_state (list_or_empty state_history) <> Some st /\
   Launch_state_history L =
     list_or_empty state_history ++ [mkHist st (utcnow e) (utcnow e)]).
Proof.
  intros H. apply Launch_new_inv in H as [_ ->]. cbn [Launch_state_history].
  destruct (update_state_history_cases e st (list_or_empty state_history)) as [[H1 ->]|[H1 ->]];
    [left | right]; now split.
Qed.

Lemma construction_keeps_history_witness :
  (last_state [mkHist "READY" 1 1] = Some "RESERVED" /\
   [mkHist "READY" 1 1; mkHist "RESERVED" 7 7] = [mkHist "READY" 1 1]) \/
  (last_state [mkHist "READY" 1 1] <> Some "RESERVED" /\
   [mkHist "READY" 1 1; mkHist "RESERVED" 7 7] =
     [mkHist "READY" 1 1] ++ [mkHist "RESERVED" 7 7]).
Proof.
  apply (construction_keeps_history (mkEnv 7 "n" "i") "RESERVED" "/tmp/launch" None None None
           None (Some [mkHist "READY" 1 1]) None None
           (mkLaunch None None "n" "i" "/tmp/launch" None
              [mkHist "READY" 1 1; mkHist "RESERVED" 7 7] "RESERVED" None)).
  reflexivity.
Defined.

(** ** How assignments and touches compose *)

(** X8. Assigning the same state twice in a row is the same as assigning it
    once: the second assignment changes nothing, whatever the clock says. *)
Theorem set_state_twice (e1 e2 : env) (v : string) (L : Launch) :
  Launch_set_state e2 v (Launch_set_state e1 v L) = Launch_set_state e1 v L.
Proof.
  destruct L as [w i h ip d a hh s li]. unfold Launch_set_state, Launch_update_state_history.
  cbn [Launch_with_state Launch_state_history Launch_with_history].
  now rewrite (update_state_history_same e2 v _ (update_state_history_last e1 v hh)).
Qed.

(** X9. A touch overwrites the previous touch: touching twice is the same as
    touching once at the later time. *)
Theorem touch_twice (e1 e2 : env) (L L1 : Launch) :
  Launch_touch_history e1 L = OK L1 ->
  Launch_touch_history e2 L1 = Launch_touch_history e2 L.
Proof.
  intros H. apply Launch_touch_history_inv in H as (h & d & Hh & ->).
  rewrite (Launch_touch_history_snoc e2 L h d Hh).
  rewrite (Launch_touch_history_snoc e2 _ h (hist_touch (utcnow e1) d)
             (Launch_with_history_history L _)).
  destruct L; reflexivity.
Qed.

Lemma touch_twice_witness :
  Launch_touch_history (mkEnv 9 "n" "i")
    (mkLaunch None None "n" "i" "/tmp/launch" None [mkHist "RUNNING" 5 7] "RUNNING" None) =
  Launch_touch_history (mkEnv 9 "n" "i")
    (mkLaunch None None "n" "i" "/tmp/launch" None [mkHist "RUNNING" 5 5] "RUNNING" None).
Proof.
  apply (touch_twice (mkEnv 7 "n" "i") (mkEnv 9 "n" "i")
           (mkLaunch None None "n" "i" "/tmp/launch" None [mkHist "RUNNING" 5 5] "RUNNING"
              None)).
  reflexivity.
Defined.

(** X10. While a launch is in its first RUNNING period (the last history
    entry is RUNNING and no earlier one is), a touch succeeds and last_pinged
    then reports the time of that touch. *)
Theorem heartbeat_is_reported (e : env) (L : Launch) (h : list hist) (d : hist) :
  Launch_state_history L = h ++ [d] ->
  state d = "RUNNING" ->
  Forall (fun x => state x <> "RUNNING") h ->
  exists L' : Launch,
    Launch_touch_history e L = OK L' /\ Launch_last_pinged L' = Some (utcnow e).
Proof.
  intros Hh Hd Hnone. exists (Launch_with_history L (h ++ [hist_touch (utcnow e) d])).
  split; [now apply Launch_touch_history_snoc|].
  unfold Launch_last_pinged. rewrite Launch_get_time_loop, Launch_with_history_history.
  assert (Hf : find (state_in (inl "RUNNING")) (h ++ [hist_touch (utcnow e) d]) =
               Some (hist_touch (utcnow e) d)).
  { apply find_first. exists h, []. split; [reflexivity|].
    split; [now apply not_in_state|]. rewrite state_in_one. cbn [hist_touch state].
    rewrite Hd. reflexivity. }
  now rewrite Hf.
Qed.

Lemma heartbeat_is_reported_witness :
  exists L' : Launch,
    Launch_touch_history (mkEnv 30 "n" "i")
      (mkLaunch None None "n" "i" "/tmp/launch" None
         [mkHist "RESERVED" 1 1; mkHist "RUNNING" 5 5] "RUNNING" None) = OK L' /\
    Launch_last_pinged L' = Some 30%Z.
Proof.
  apply (heartbeat_is_reported (mkEnv 30 "n" "i") _ [mkHist "RESERVED" 1 1]
           (mkHist "RUNNING" 5 5)).
  - reflexivity.
  - reflexivity.
  - repeat constructor. discriminate.
Defined.

(** ** Time stamps under a clock that does not go back *)

Lemma created_sorted_snoc (h : list hist) (x : hist) :
  created_sorted (h ++ [x]) <->
  created_sorted h /\
  match last h with
  | Some d => (created_at d <= created_at x)%Z
  | None => True
  end.
Proof.
  induction h as [|a [|b t] IH].
  - simpl. tauto.
  - simpl. tauto.
  - change (created_sorted ((a :: b :: t) ++ [x])) with
      ((created_at a <= created_at b)%Z /\ created_sorted ((b :: t) ++ [x])).
    change (created_sorted (a :: b :: t)) with
      ((created_at a <= created_at b)%Z /\ created_sorted (b :: t)).
    change (last (a :: b :: t)) with (last (b :: t)).
    rewrite IH. tauto.
Qed.

Lemma history_in_time_later (b b' : datetime) (h : list hist) :
  (b <= b')%Z -> history_in_time b h -> history_in_time b' h.
Proof.
  intros Hb [Hs Hf]. split; [exact Hs|].
  eapply List.Forall_impl; [|exact Hf]. intros d [H1 H2]. split; [exact H1 | lia].
Qed.

Lemma history_in_time_snoc (b : datetime) (h : list hist) (x : hist) :
  history_in_time b (h ++ [x]) <->
  created_sorted (h ++ [x]) /\
  Forall (fun d => (created_at d <= updated_at d)%Z /\ (updated_at d <= b)%Z) h /\
  (created_at x <= updated_at x)%Z /\ (updated_at x <= b)%Z.
Proof.
  unfold history_in_time. rewrite List.Forall_app. split.
  - intros (Hs & Hh & Hx). inversion Hx; subst. tauto.
  - intros (Hs & Hh & Hx1 & Hx2). repeat split; try assumption.
    constructor; [now split | constructor].
Qed.

Lemma Launch_apply_in_time (b : datetime) (op : Launch_op) (L L' : Launch) :
  (b <= op_clock op)%Z ->
  history_in_time b (Launch_state_history L) ->
  Launch_apply op L = OK L' ->
  history_in_time (op_clock op) (Launch_state_history L').
Proof.
  intros Hb Hin H. destruct op as [e v|e]; cbn [op_clock Launch_apply] in *.
  - injection H as <-. rewrite Launch_set_state_history.
    destruct (update_state_history_cases e v (Launch_state_history L)) as [[_ ->]|[_ ->]].
    + now apply (history_in_time_later b).
    + apply (history_in_time_later b (utcnow e)) in Hin; [|exact Hb].
      destruct Hin as [Hs Hf]. apply history_in_time_snoc. cbn [created_at updated_at].
      split; [|split; [exact Hf | lia]].
      apply created_sorted_snoc. split; [exact Hs|]. cbn [created_at].
      destruct (last (Launch_state_history L)) as [d|] eqn:Hd; [|exact I].
      apply last_Some in Hd as [h' Hh']. rewrite Hh' in Hf.
      apply List.Forall_app in Hf as [_ Hf]. inversion Hf; subst. lia.
  - apply Launch_touch_history_inv in H as (h & d & Hh & ->).
    rewrite Launch_with_history_history. rewrite Hh in Hin.
    apply history_in_time_snoc in Hin as (Hs & Hf & Hd1 & Hd2).
    apply history_in_time_snoc. cbn [hist_touch created_at updated_at].
    split; [|split; [|lia]].
    + apply created_sorted_snoc in Hs. apply created_sorted_snoc. exact Hs.
    + eapply List.Forall_impl; [|exact Hf]. intros x [H1 H2]. split; [exact H1 | lia].
Qed.

(** X11. When the clock never goes back, state assignments and touches keep
    the time stamps of state_history consistent: entries stay ordered by
    created_at, every entry has created_at <= updated_at, and no time stamp is
    later than the last clock reading. *)
Theorem history_stays_in_time (t0 : datetime) (ops : list Launch_op) (L L' : Launch) :
  history_in_time t0 (Launch_state_history L) ->
  clock_ordered t0 ops ->
  Launch_run ops L = OK L' ->
  history_in_time (last_clock t0 ops) (Launch_state_history L').
Proof.
  revert t0 L. induction ops as [|op ops IH]; intros t0 L Hin Hclock Hrun;
    cbn [Launch_run clock_ordered] in *.
  - injection Hrun as <-. exact Hin.
  - destruct Hclock as [Hop Hclock]. apply bind_OK in Hrun as (L1 & H1 & Hrun).
    unfold last_clock. cbn [fold_left].
    apply (IH (op_clock op) L1); try assumption.
    now apply (Launch_apply_in_time t0 op L).
Qed.

Lemma history_stays_in_time_witness :
  history_in_time 12
    [mkHist "RESERVED" 1 1; mkHist "RUNNING" 5 9; mkHist "COMPLETED" 12 12].
Proof.
  apply (history_stays_in_time 1
           [Assign (mkEnv 5 "n" "i") "RUNNING"; Touch (mkEnv 9 "n" "i");
            Assign (mkEnv 12 "n" "i") "COMPLETED"]
           (mkLaunch None None "n" "i" "/tmp/launch" None [mkHist "RESERVED" 1 1]
              "RESERVED" None)
           (mkLaunch None None "n" "i" "/tmp/launch" None
              [mkHist "RESERVED" 1 1; mkHist "RUNNING" 5 9; mkHist "COMPLETED" 12 12]
              "COMPLETED" None)).
  - split; [exact I|]. repeat constructor; cbn; lia.
  - cbn. lia.
  - reflexivity.
Defined.

(** ** The two output forms of a step *)

(** X12. The storage form of a step always has the keys launches (the launch
    ids, one per launch, in order) and state, also when the full form leaves
    them out (no launches, state WAITING); on every other key the two forms
    agree. *)
Theorem storage_form_of_full_form (f : FireWork) :
  exists d d' : dict,
    FireWork_to_dict f = VDict d /\
    FireWork_to_db_dict f = VDict d' /\
    dict_get "launches" d' =
      Some (VList (map (fun l => opt_int (Launch_launch_id l)) (FireWork_launches f))) /\
    dict_get "state" d' = Some (VStr (FireWork_state f)) /\
    (dict_get "launches" d = None <-> FireWork_launches f = []) /\
    (dict_get "state" d = None <-> FireWork_state f = "WAITING") /\
    forall k : string, k <> "launches" -> k <> "state" -> dict_get k d' = dict_get k d.
Proof.
  destruct (FireWork_to_dict_mapping f) as (d & Hd & _).
  exists d, (dict_set "state" (VStr (FireWork_state f))
               (dict_set "launches"
                  (VList (map (fun l => opt_int (Launch_launch_id l)) (FireWork_launches f))) d)).
  split; [exact Hd|]. split; [unfold FireWork_to_db_dict; now rewrite Hd|].
  split; [rewrite dict_get_set_ne by discriminate; apply dict_get_set_eq|].
  split; [apply dict_get_set_eq|].
  split; [|split].
  - destruct f as [tasks spec i [|l ls] c s]; cbn [FireWork_to_dict FireWork_launches] in *;
      destruct (String.eqb s "WAITING"); injection Hd as <-; split; intros H;
      try reflexivity; discriminate H.
  - destruct f as [tasks spec i [|l ls] c s]; cbn [FireWork_to_dict FireWork_state] in *;
      destruct (String.eqb s "WAITING") eqn:Hs; injection Hd as <-;
      (split; intros H;
       [first [now apply String.eqb_eq | discriminate H]
       | first [reflexivity | apply String.eqb_neq in Hs; contradiction]]).
  - intros k Hl Hs. now rewrite !dict_get_set_ne.
Qed.

(** ** Construction of a step *)

(** X13. Construction changes the spec in the reserved key only: every other
    key of the spec argument keeps its value; the step's tasks are the tasks
    argument, a single task becoming a one-element list, and an absent
    launches argument gives no launches. *)
Theorem construction_keeps_spec (e : env) (tasks : FireTask + list FireTask)
    (spec : option dict) (fw_id : Z) (launches : option (list Launch)) (st : string)
    (created_at : option datetime) :
  (forall k : string,
     k <> "_tasks" ->
     dict_get k (FireWork_spec (FireWork_init e tasks spec fw_id launches st created_at)) =
     dict_get k (dict_or_empty spec)) /\
  FireWork_tasks (FireWork_init e tasks spec fw_id launches st created_at) =
    match tasks with inl t => [t] | inr l => l end /\
  (launches = None ->
   FireWork_launches (FireWork_init e tasks spec fw_id launches st created_at) = []) /\
  (created_at = None ->
   FireWork_created_at (FireWork_init e tasks spec fw_id launches st created_at) = utcnow e).
Proof.
  unfold FireWork_init. cbn [FireWork_spec FireWork_tasks FireWork_launches FireWork_created_at].
  split; [intros k Hk; now apply dict_get_set_ne|]. split; [reflexivity|].
  split; intros ->; reflexivity.
Qed.

(** X14. An empty spec dictionary handed to the constructor is not kept: it
    stays empty and the step gets a dictionary of its own.  A non-empty one is
    kept and receives the reserved key, so the caller's dictionary changes. *)
Theorem spec_argument_sharing (e : env) (tasks : FireTask + list FireTask) (a : nat)
    (fw_id : Z) (launches : option (list Launch)) (st : string)
    (created_at : option datetime) (s s' : store) (o : FireWork_obj) :
  FireWork_init_obj e tasks (Some a) fw_id launches st created_at s = Some (s', o) ->
  (s !! a = Some [] -> s' !! a = Some [] /\ obj_spec o <> a) /\
  (forall x d, s !! a = Some (x :: d) ->
     obj_spec o = a /\
     s' !! a = Some (dict_set "_tasks"
                       (VList (map FireTask_to_dict
                                 match tasks with inl t => [t] | inr l => l end))
                       (x :: d))).
Proof.
  unfold FireWork_init_obj. intros H. split.
  - intros Ha. rewrite Ha in H.
    assert (Hnew : (s ++ [[]]) !! length s = Some ([] : dict)).
    { rewrite lookup_app_r by lia. now rewrite Nat.sub_diag. }
    rewrite Hnew in H. injection H as <- <-. cbn [obj_spec].
    assert (Hlt : (a < length s)%nat) by (eapply lookup_lt_Some; eauto).
    split; [|lia]. rewrite list_lookup_insert_ne by lia. rewrite lookup_app_l by lia.
    exact Ha.
  - intros x d Ha. rewrite Ha in H. rewrite Ha in H. injection H as <- <-. cbn [obj_spec].
    split; [reflexivity|]. apply list_lookup_insert_eq. eapply lookup_lt_Some; eauto.
Qed.

Lemma spec_argument_sharing_witness :
  ([[]; [("x", VInt 1)]] !! 0%nat = Some ([] : dict) ->
   [[]; [("x", VInt 1)]; [("_tasks", VList [FireTask_to_dict (mkFireTask "A" [])])]] !! 0%nat =
     Some ([] : dict) /\
   2%nat <> 0%nat) /\
  (forall x d, [[]; [("x", VInt 1)]] !! 0%nat = Some (x :: d) ->
     2%nat = 0%nat /\
     [[]; [("x", VInt 1)]; [("_tasks", VList [FireTask_to_dict (mkFireTask "A" [])])]] !! 0%nat =
       Some (dict_set "_tasks" (VList (map FireTask_to_dict [mkFireTask "A" []])) (x :: d))).
Proof.
  apply (spec_argument_sharing (mkEnv 10 "n" "i") (inl (mkFireTask "A" [])) 0 1 None
           "WAITING" None [[]; [("x", VInt 1)]]
           [[]; [("x", VInt 1)]; [("_tasks", VList [FireTask_to_dict (mkFireTask "A" [])])]]
           (mkFireWork_obj [mkFireTask "A" []] 2 1 [] 10 "WAITING")).
  reflexivity.
Defined.

(** ** The rank table *)

(** X15. STATE_RANKS gives the eight states the ranks 0 to 7, and no two
    states have the same rank. *)
Theorem state_ranks_are_distinct :
  (forall (s1 s2 : string) (r : Z),
     dict_get s1 STATE_RANKS = Some r -> dict_get s2 STATE_RANKS = Some r -> s1 = s2) /\
  (forall (s : string) (r : Z), dict_get s STATE_RANKS = Some r -> (0 <= r <= 7)%Z) /\
  map fst STATE_RANKS =
    ["DEFUSED"; "WAITING"; "READY"; "FIZZLED"; "RESERVED"; "RUNNING"; "CANCELED"; "COMPLETED"].
Proof.
  assert (Hget : forall (s : string) (r : Z),
             dict_get s STATE_RANKS = Some r -> In (s, r) STATE_RANKS).
  { intros s r. apply dict_get_In. }
  split; [|split; [|reflexivity]].
  - intros s1 s2 r H1 H2. apply Hget in H1, H2. simpl in H1, H2.
    repeat match goal with
           | H : _ \/ _ |- _ => destruct H as [H|H]
           | H : (_, _) = (_, _) |- _ =>
               first [discriminate H | injection H; intros; subst; clear H]
           | H : False |- _ => contradiction
           end; try reflexivity; try discriminate.
  - intros s r H. apply Hget in H. simpl in H.
    repeat match goal with
           | H : _ \/ _ |- _ => destruct H as [H|H]
           | H : (_, _) = (_, _) |- _ =>
               first [discriminate H | injection H; intros; subst; clear H]
           | H : False |- _ => contradiction
           end; lia.
Qed.

(** ** What deserialization requires and guarantees *)

Lemma getitem_OK (k : string) (m : dict) (v : pyval) :
  getitem k m = OK v -> dict_get k m = Some v.
Proof. unfold getitem. destruct (dict_get k m); [intros H; now injection H as -> | discriminate]. Qed.

Lemma dict_get_dict_in {A} (k : string) (d : list (string * A)) (v : A) :
  dict_get k d = Some v -> dict_in k d = true.
Proof. unfold dict_in. now intros ->. Qed.

Lemma load_values_dict_in (registry : list string) (k : string) (d d' : dict) :
  load_values registry d = OK d' -> dict_in k d' = true -> dict_in k d = true.
Proof.
  intros Hl. apply load_values_keys in Hl. rewrite !dict_in_In. now rewrite Hl.
Qed.

Lemma load_values_absent (registry : list string) (k : string) (d d' : dict) :
  load_values registry d = OK d' -> dict_get k d = None -> dict_get k d' = None.
Proof. intros Hl. apply load_values_keys in Hl. now apply dict_get_keys. Qed.

Lemma FWAction_from_dict_body_inv (fwd : pyval -> result FireWork) (m : dict) (a : FWAction) :
  FWAction_from_dict_body fwd m = OK a ->
  dict_in "action" m = true /\ dict_in "stored_data" m = true /\
  dict_in "mod_spec" m = true /\ list_in (FWAction_command a) commands = true.
Proof.
  unfold FWAction_from_dict_body. intros H.
  apply bind_OK in H as (v0 & Hms & H). apply getitem_OK, dict_get_dict_in in Hms.
  apply bind_OK in H as (ms & _ & H). apply bind_OK in H as (ms1 & _ & H).
  apply bind_OK in H as (cmd & Hc & H). apply getitem_OK, dict_get_dict_in in Hc.
  apply bind_OK in H as (sd & Hsd & H). apply getitem_OK, dict_get_dict_in in Hsd.
  apply bind_OK in H as (c & _ & H). apply bind_OK in H as (sdo & _ & H).
  unfold FWAction_new, construct in H. rewrite FWAction_init_run in H.
  destruct (list_in c commands) eqn:Hcmd; [|discriminate]. cbn [fst] in H.
  injection H as <-. now repeat split.
Qed.

Lemma FWAction_from_dict_inv (registry : list string) (e : env) (fuel : nat) (m : pyval)
    (a : FWAction) :
  FWAction_from_dict registry e fuel m = OK a ->
  exists d : dict,
    m = VDict d /\
    dict_in "action" d = true /\ dict_in "stored_data" d = true /\
    dict_in "mod_spec" d = true /\ list_in (FWAction_command a) commands = true.
Proof.
  destruct fuel as [|fuel]; [discriminate|]. cbn [FWAction_from_dict]. intros H.
  apply recursive_deserialize_OK in H as (d & d' & -> & Hd' & H).
  apply FWAction_from_dict_body_inv in H as (H1 & H2 & H3 & H4).
  exists d. split; [reflexivity|].
  repeat split; try assumption; eapply load_values_dict_in; eauto.
Qed.



(** The keys [Launch.from_dict] subscripts; [action] is the one it reads
    with [get]. *)
Lemma Launch_from_dict_body_inv (e : env) (fa : pyval -> result FWAction) (m : dict)
    (L : Launch) :
  Launch_from_dict_body e fa m = OK L ->
  Forall (fun k => dict_in k m = true)
    ["fworker"; "state"; "launch_dir"; "host"; "ip"; "state_history"; "launch_id"; "fw_id"] /\
  dict_in (Launch_state L) STATE_RANKS = true /\
  history_tracks_state L /\
  Launch_fworker L <> None /\
  (dict_get "action" m = None -> Launch_action L = None) /\
  (forall a, Launch_action L = Some a ->
             exists v, dict_get "action" m = Some v /\ fa v = OK a).
Proof.
  unfold Launch_from_dict_body. intros H.
  apply bind_OK in H as (w0 & Hw & H). apply getitem_OK, dict_get_dict_in in Hw.
  apply bind_OK in H as (w & _ & H). apply bind_OK in H as (act & Hact & H).
  apply bind_OK in H as (v1 & H1 & H). apply getitem_OK, dict_get_dict_in in H1.
  apply bind_OK in H as (v2 & H2 & H). apply getitem_OK, dict_get_dict_in in H2.
  apply bind_OK in H as (v3 & H3 & H). apply getitem_OK, dict_get_dict_in in H3.
  apply bind_OK in H as (v4 & H4 & H). apply getitem_OK, dict_get_dict_in in H4.
  apply bind_OK in H as (v5 & H5 & H). apply getitem_OK, dict_get_dict_in in H5.
  apply bind_OK in H as (v6 & H6 & H). apply getitem_OK, dict_get_dict_in in H6.
  apply bind_OK in H as (v7 & H7 & H). apply getitem_OK, dict_get_dict_in in H7.
  apply bind_OK in H as (st & _ & H). apply bind_OK in H as (dir & _ & H).
  apply bind_OK in H as (host & _ & H). apply bind_OK in H as (ip & _ & H).
  apply bind_OK in H as (hh & _ & H). apply bind_OK in H as (lid & _ & H).
  apply bind_OK in H as (fid & _ & H).
  apply Launch_new_inv in H as [Hst ->].
  split; [repeat constructor; assumption|].
  split; [exact Hst|].
  split; [unfold history_tracks_state; cbn; apply update_state_history_last|].
  split; [discriminate|]. cbn [Launch_action]. split.
  - intros Hnone. rewrite Hnone in Hact. now injection Hact as <-.
  - intros a ->. destruct (dict_get "action" m) as [v|]; [|discriminate].
    exists v. split; [reflexivity|]. destruct (truthy v); [|discriminate].
    apply bind_OK in Hact as (a0 & Ha0 & Hact). now injection Hact as <-.
Qed.

(** X17. A launch obtained from Launch.from_dict always has a state of the
    vocabulary, a non-empty history whose last entry is in that state, a
    worker, and (if any) an action with a valid command.  Its mapping has the
    eight keys the method subscripts; action is the only optional key, and
    without it the launch has no action. *)
Theorem deserialized_launch_is_valid (registry : list string) (e : env) (fuel : nat)
    (m : pyval) (L : Launch) :
  Launch_from_dict registry e fuel m = OK L ->
  In (Launch_state L) (map fst STATE_RANKS) /\
  Launch_state_history L <> [] /\
  last_state (Launch_state_history L) = Some (Launch_state L) /\
  Launch_fworker L <> None /\
  (forall a, Launch_action L = Some a -> In (FWAction_command a) commands) /\
  exists d : dict,
    m = VDict d /\
    Forall (fun k => dict_in k d = true)
      ["fworker"; "state"; "launch_dir"; "host"; "ip"; "state_history"; "launch_id"; "fw_id"] /\
    (dict_get "action" d = None -> Launch_action L = None).
Proof.
  destruct fuel as [|fuel]; [discriminate|]. cbn [Launch_from_dict]. intros H.
  apply recursive_deserialize_OK in H as (d & d' & -> & Hd' & H).
  apply Launch_from_dict_body_inv in H as (Hkeys & Hst & Htr & Hw & Hnone & Hact).
  split; [now apply dict_in_In|].
  split; [now apply history_tracks_state_nonempty|].
  split; [exact Htr|]. split; [exact Hw|]. split.
  - intros a Ha. destruct (Hact a Ha) as (v & _ & Hv).
    apply FWAction_from_dict_inv in Hv as (_ & _ & _ & _ & _ & Hc). now apply list_in_In.
  - exists d. split; [reflexivity|]. split.
    + eapply List.Forall_impl; [|exact Hkeys]. intros k Hk.
      eapply load_values_dict_in; eauto.
    + intros Hn. apply Hnone. eapply load_values_absent; eauto.
Qed.

Lemma deserialized_launch_is_valid_witness :
  In (Launch_state (sample_launch 1)) (map fst STATE_RANKS) /\
  Launch_state_history (sample_launch 1) <> [] /\
  last_state (Launch_state_history (sample_launch 1)) = Some (Launch_state (sample_launch 1)) /\
  Launch_fworker (sample_launch 1) <> None /\
  (forall a, Launch_action (sample_launch 1) = Some a -> In (FWAction_command a) commands) /\
  exists d : dict,
    Launch_to_dict (sample_launch 1) = VDict d /\
    Forall (fun k => dict_in k d = true)
      ["fworker"; "state"; "launch_dir"; "host"; "ip"; "state_history"; "launch_id"; "fw_id"] /\
    (dict_get "action" d = None -> Launch_action (sample_launch 1) = None).
Proof.
  apply (deserialized_launch_is_valid sample_registry sample_env 3). reflexivity.
Defined.

Lemma Launch_from_dict_tracks (registry : list string) (e : env) (fuel : nat) (m : pyval)
    (L : Launch) :
  Launch_from_dict registry e fuel m = OK L -> history_tracks_state L.
Proof.
  destruct fuel as [|fuel]; [discriminate|]. cbn [Launch_from_dict]. intros H.
  apply recursive_deserialize_OK in H as (d & d' & -> & Hd' & H).
  now apply Launch_from_dict_body_inv in H as (_ & _ & Htr & _).
Qed.

Lemma FireWork_from_dict_body_inv (e : env) (fl : pyval -> result Launch) (m : dict)
    (f : FireWork) :
  FireWork_from_dict_body e fl m = OK f ->
  dict_in "spec" m = true /\
  tasks_key_consistent f /\
  (forall l, In l (FireWork_launches f) -> exists v, fl v = OK l) /\
  (dict_get "launches" m = None -> FireWork_launches f = []) /\
  (dict_get "fw_id" m = None -> FireWork_fw_id f = (-1)%Z) /\
  (dict_get "state" m = None -> FireWork_state f = "WAITING") /\
  (dict_get "created_at" m = None -> FireWork_created_at f = utcnow e).
Proof.
  unfold FireWork_from_dict_body. intros H.
  apply bind_OK in H as (v0 & Hspec & H). apply getitem_OK, dict_get_dict_in in Hspec.
  apply bind_OK in H as (spec & _ & H). apply bind_OK in H as (tv & _ & H).
  apply bind_OK in H as (lo & Hlo & H). apply bind_OK in H as (i & Hi & H).
  apply bind_OK in H as (st & Hst & H). apply bind_OK in H as (c & Hc & H).
  apply bind_OK in H as (ts & _ & H). injection H as <-.
  split; [exact Hspec|]. split; [apply FireWork_init_consistent|].
  unfold FireWork_init.
  cbn [FireWork_launches FireWork_fw_id FireWork_state FireWork_created_at].
  split; [|split; [|split; [|split]]].
  - intros l Hl. destruct (dict_get "launches" m) as [v|]; [|injection Hlo as <-; contradiction].
    destruct v as [| | | | |[|tmp vs]| | | | | |];
      try (destruct (truthy _); [discriminate Hlo | injection Hlo as <-; contradiction]).
    apply bind_OK in Hlo as (ls & Hls & Hlo). injection Hlo as <-.
    rewrite list_or_empty_Some in Hl. apply mapM_Forall2 in Hls.
    clear -Hls Hl. induction Hls as [|x y xs ys Hxy _ IH]; [contradiction|].
    destruct Hl as [<-|Hl]; [eauto | now apply IH].
  - intros Hn. rewrite Hn in Hlo. now injection Hlo as <-.
  - intros Hn. rewrite Hn in Hi. now injection Hi as <-.
  - intros Hn. rewrite Hn in Hst. now injection Hst as <-.
  - intros Hn. rewrite Hn in Hc. now injection Hc as <-.
Qed.

(** X18. A step obtained from FireWork.from_dict has its reserved spec key
    equal to the serialized form of its tasks, and each of its launches has a
    history that ends in the launch's state.  The mapping must have the key
    spec; launches, fw_id, state and created_at are optional and default to no
    launches, -1, WAITING and the current time. *)
Theorem deserialized_step_is_valid (registry : list string) (e : env) (fuel : nat)
    (m : pyval) (f : FireWork) :
  FireWork_from_dict registry e fuel m = OK f ->
  tasks_key_consistent f /\
  Forall history_tracks_state (FireWork_launches f) /\
  exists d : dict,
    m = VDict d /\ dict_in "spec" d = true /\
    (dict_get "launches" d = None -> FireWork_launches f = []) /\
    (dict_get "fw_id" d = None -> FireWork_fw_id f = (-1)%Z) /\
    (dict_get "state" d = None -> FireWork_state f = "WAITING") /\
    (dict_get "created_at" d = None -> FireWork_created_at f = utcnow e).
Proof.
  destruct fuel as [|fuel]; [discriminate|]. cbn [FireWork_from_dict]. intros H.
  apply recursive_deserialize_OK in H as (d & d' & -> & Hd' & H).
  apply FireWork_from_dict_body_inv in H as (Hspec & Hcons & Hls & H1 & H2 & H3 & H4).
  split; [exact Hcons|]. split.
  - apply List.Forall_forall. intros l Hl. destruct (Hls l Hl) as [v Hv].
    eapply Launch_from_dict_tracks; eauto.
  - exists d. split; [reflexivity|].
    split; [eapply load_values_dict_in; eauto|].
    repeat split; intros Hn;
      [apply H1 | apply H2 | apply H3 | apply H4]; eapply load_values_absent; eauto.
Qed.

Lemma deserialized_step_is_valid_witness :
  tasks_key_consistent sample_step /\
  Forall history_tracks_state (FireWork_launches sample_step) /\
  exists d : dict,
    FireWork_to_dict sample_step = VDict d /\ dict_in "spec" d = true /\
    (dict_get "launches" d = None -> FireWork_launches sample_step = []) /\
    (dict_get "fw_id" d = None -> FireWork_fw_id sample_step = (-1)%Z) /\
    (dict_get "state" d = None -> FireWork_state sample_step = "WAITING") /\
    (dict_get "created_at" d = None -> FireWork_created_at sample_step = utcnow sample_env).
Proof.
  apply (deserialized_step_is_valid sample_registry sample_env 2). reflexivity.
Defined.

(** X19. FireWork.from_dict never returns a step for a mapping without the
    key spec.  When the values of such a mapping reconstruct, it raises
    KeyError for spec, whatever other keys the mapping holds; when the
    reconstruction of a value raises (an unresolved type discriminator, for
    one), that error is raised instead.  When the values reconstruct and the
    reconstructed spec is a dictionary without the reserved task key, it
    raises KeyError for that key. *)
Theorem step_mapping_needs_spec (registry : list string) (e : env) (fuel : nat) (d : dict) :
  (dict_get "spec" d = None ->
   forall f : FireWork, FireWork_from_dict registry e fuel (VDict d) <> OK f) /\
  (dict_get "spec" d = None ->
   forall d' : dict,
     load_values registry d = OK d' ->
     FireWork_from_dict registry e (S fuel) (VDict d) = Raise (KeyError "spec")) /\
  (forall x : exn,
     load_values registry d = Raise x ->
     FireWork_from_dict registry e (S fuel) (VDict d) = Raise x) /\
  (forall d' spec : dict,
     load_values registry d = OK d' ->
     dict_get "spec" d' = Some (VDict spec) -> dict_get "_tasks" spec = None ->
     FireWork_from_dict registry e (S fuel) (VDict d) = Raise (KeyError "_tasks")).
Proof.
  split; [|split; [|split]].
  - intros Hn f H. destruct fuel as [|fuel]; [discriminate|]. cbn [FireWork_from_dict] in H.
    apply recursive_deserialize_OK in H as (d0 & d' & Hd0 & Hd' & H). injection Hd0 as <-.
    apply FireWork_from_dict_body_inv in H as (Hspec & _).
    apply (load_values_dict_in registry "spec" d d' Hd') in Hspec.
    unfold dict_in in Hspec. rewrite Hn in Hspec. discriminate.
  - intros Hn d' Hd'. cbn [FireWork_from_dict recursive_deserialize]. rewrite Hd'. cbn [bind].
    unfold FireWork_from_dict_body, getitem.
    now rewrite (load_values_absent registry "spec" d d' Hd' Hn).
  - intros x Hx. cbn [FireWork_from_dict recursive_deserialize]. now rewrite Hx.
  - intros d' spec Hd' Hs Ht. cbn [FireWork_from_dict recursive_deserialize]. rewrite Hd'.
    cbn [bind]. unfold FireWork_from_dict_body, getitem. rewrite Hs. cbn [bind as_dict].
    now rewrite Ht.
Qed.
